(** * VectorBacktest: portfolio accounting and performance analytics

    A shallow embedding of the accounting and analytics code of the
    repository (performance/performance.py, ma_cross.py,
    RandomForecastStrategy.py, mr_spy_iwm.py, snp_forecast.py) and the
    properties its specification states about it.

    Frames.  A pandas Series is a list over the positional index
    0 .. n-1; a frame is a record of its columns (or the list of its
    rows where the code walks rows).  Four readings of pandas are fixed
    here:
    - an assignment through a row or column taken from a frame
      ([pairs.iloc[i]['long_market'] = ...], [signals['signal'][0:5] = 0.0],
      [portfolio['returns'].fillna(0.0, inplace=True)]) writes into the
      frame;
    - [positions * bars['Open']], a frame times a Series, matches the
      labels of the Series (the dates of the bars) with the column labels
      of the frame (the ticker symbol): no label is on both sides, and
      every cell of the product is NaN;
    - [sum(axis=1)], [cumsum], [cumprod], [max], [mean] and [std] skip
      NaN entries (the sum of a row with nothing left is 0.0);
    - [pct_change] first carries the last valid entry forward over NaN
      entries (its default [fill_method='pad']), then divides every
      entry by the previous one.

    Numbers.  The Python code computes on IEEE doubles held in pandas
    Series.  A double is modelled as [float]: a rational, or one of the
    three special values NaN, +inf, -inf, with the IEEE rules for the
    special values (NaN propagates, NaN is different from everything
    including itself, x/0 is infinite or NaN).  Rounding and overflow of
    finite values are not modelled: finite arithmetic is exact.  In
    particular the mean of equal numbers is that number and their
    deviation is exactly 0 here, where the doubles of the code can leave
    a rounding error of the order of 1e-17. *)

From Stdlib Require Import QArith Qabs Lqa List Bool Lia Arith.
Import ListNotations.
Open Scope Q_scope.

(** ** IEEE values over the rationals *)

Inductive float : Type :=
| NaN
| PInf
| NInf
| Fin (q : Q).

Declare Scope float_scope.
Delimit Scope float_scope with float.
Bind Scope float_scope with float.

Module F.

Definition zero : float := Fin 0.
Definition one : float := Fin 1.

Definition is_nan (x : float) : bool :=
  match x with NaN => true | _ => false end.

Definition is_finite (x : float) : bool :=
  match x with Fin _ => true | _ => false end.

Definition neg (x : float) : float :=
  match x with
  | NaN => NaN
  | PInf => NInf
  | NInf => PInf
  | Fin q => Fin (- q)
  end.

Definition add (x y : float) : float :=
  match x, y with
  | NaN, _ | _, NaN => NaN
  | PInf, NInf | NInf, PInf => NaN
  | PInf, _ | _, PInf => PInf
  | NInf, _ | _, NInf => NInf
  | Fin a, Fin b => Fin (a + b)
  end.

Definition sub (x y : float) : float := add x (neg y).

(** Sign of a rational as a comparison: [Lt] negative, [Eq] zero. *)
Definition sgn (q : Q) : comparison := Qcompare q 0.

Definition inf_of (pos : bool) : float := if pos then PInf else NInf.

(** An infinity times a finite value: NaN at zero, else the sign rule. *)
Definition inf_times (pos : bool) (q : Q) : float :=
  match sgn q with
  | Eq => NaN
  | Gt => inf_of pos
  | Lt => inf_of (negb pos)
  end.

Definition mul (x y : float) : float :=
  match x, y with
  | NaN, _ | _, NaN => NaN
  | PInf, PInf | NInf, NInf => PInf
  | PInf, NInf | NInf, PInf => NInf
  | PInf, Fin q | Fin q, PInf => inf_times true q
  | NInf, Fin q | Fin q, NInf => inf_times false q
  | Fin a, Fin b => Fin (a * b)
  end.

Definition div (x y : float) : float :=
  match x, y with
  | NaN, _ | _, NaN => NaN
  | (PInf | NInf), (PInf | NInf) => NaN
  | PInf, Fin q => match sgn q with Lt => NInf | _ => PInf end
  | NInf, Fin q => match sgn q with Lt => PInf | _ => NInf end
  | Fin _, (PInf | NInf) => Fin 0
  | Fin a, Fin b =>
      match sgn b with
      | Eq => match sgn a with Eq => NaN | Gt => PInf | Lt => NInf end
      | _ => Fin (a / b)
      end
  end.

(** IEEE [==]: false as soon as one side is NaN. *)
Definition eqb (x y : float) : bool :=
  match x, y with
  | PInf, PInf | NInf, NInf => true
  | Fin a, Fin b => Qeq_bool a b
  | _, _ => false
  end.

(** IEEE [<]: false as soon as one side is NaN. *)
Definition ltb (x y : float) : bool :=
  match x, y with
  | NaN, _ | _, NaN => false
  | _, NInf => false
  | NInf, _ => true
  | PInf, _ => false
  | _, PInf => true
  | Fin a, Fin b => negb (Qle_bool b a)
  end.

Definition leb (x y : float) : bool := ltb x y || eqb x y.

Definition of_nat (n : nat) : float := Fin (inject_Z (Z.of_nat n)).

End F.

Infix "+" := F.add : float_scope.
Infix "-" := F.sub : float_scope.
Infix "*" := F.mul : float_scope.
Infix "/" := F.div : float_scope.
Infix "==" := F.eqb : float_scope.
Infix "<?" := F.ltb : float_scope.
Infix "<=?" := F.leb : float_scope.

(** A pandas Series over an implicit positional index 0 .. n-1. *)
Definition Series := list float.

(** The element at position [t]; NaN stands for a missing label. *)
Definition at_ (s : Series) (t : nat) : float := nth t s NaN.

(** Python's builtin [max(a, b)]: the first argument unless the second
    compares strictly greater. *)
Definition py_max (a b : float) : float := if (a <? b)%float then b else a.

(** [Series.max()]: NaN entries are skipped; NaN when nothing is left. *)
Fixpoint series_max_from (best : float) (s : Series) : float :=
  match s with
  | [] => best
  | x :: rest =>
      if F.is_nan x then series_max_from best rest
      else if F.is_nan best then series_max_from x rest
      else series_max_from (if (best <? x)%float then x else best) rest
  end.

Definition series_max (s : Series) : float := series_max_from NaN s.

(** ** pandas primitives used by the source *)

(** Element-wise binary operation of two Series; a position present on
    one side only is combined with NaN (pandas aligns on the index union). *)
Fixpoint binop (f : float -> float -> float) (a b : Series) : Series :=
  match a, b with
  | [], _ => map (fun y => f NaN y) b
  | _, [] => map (fun x => f x NaN) a
  | x :: a', y :: b' => f x y :: binop f a' b'
  end.

(** Assignment of a Series to a column of a frame with [n] rows. *)
Definition reindex (n : nat) (s : Series) : Series :=
  firstn n (s ++ repeat NaN (n - length s)).

(** [Series.diff()]: the first element has no predecessor and is NaN. *)
Fixpoint diff_from (prev : float) (s : Series) : Series :=
  match s with
  | [] => []
  | x :: rest => (x - prev)%float :: diff_from x rest
  end.

Definition diff (s : Series) : Series :=
  match s with
  | [] => []
  | x :: rest => NaN :: diff_from x rest
  end.

(** [Series.cumsum()]: a NaN entry stays NaN and is left out of the
    running sum. *)
Fixpoint cumsum_from (acc : float) (s : Series) : Series :=
  match s with
  | [] => []
  | x :: rest =>
      if F.is_nan x then NaN :: cumsum_from acc rest
      else (acc + x)%float :: cumsum_from (acc + x)%float rest
  end.

Definition cumsum (s : Series) : Series := cumsum_from F.zero s.

(** [Series.cumprod()], same treatment of NaN. *)
Fixpoint cumprod_from (acc : float) (s : Series) : Series :=
  match s with
  | [] => []
  | x :: rest =>
      if F.is_nan x then NaN :: cumprod_from acc rest
      else (acc * x)%float :: cumprod_from (acc * x)%float rest
  end.

Definition cumprod (s : Series) : Series := cumprod_from F.one s.

(** [Series.fillna(method='pad')]: a NaN entry takes the last entry
    before it that is not NaN, when there is one. *)
Fixpoint pad_from (last : float) (s : Series) : Series :=
  match s with
  | [] => []
  | x :: rest =>
      let y := if F.is_nan x then last else x in
      y :: pad_from y rest
  end.

Definition pad (s : Series) : Series := pad_from NaN s.

(** [Series.pct_change()], with its default [fill_method='pad']: the
    series is padded, then divided by itself shifted by one bar, minus
    1; the first position is NaN. *)
Fixpoint pct_change_from (prev : float) (s : Series) : Series :=
  match s with
  | [] => []
  | x :: rest => (x / prev - F.one)%float :: pct_change_from x rest
  end.

Definition pct_change (s : Series) : Series :=
  match pad s with
  | [] => []
  | x :: rest => NaN :: pct_change_from x rest
  end.

Definition fillna (v : float) (s : Series) : Series :=
  map (fun x => if F.is_nan x then v else x) s.

(** [Series.replace(olds, v)]: every entry equal to one of [olds]. *)
Definition replace (olds : list float) (v : float) (s : Series) : Series :=
  map (fun x => if existsb (fun o => (x == o)%float) olds then v else x) s.

(** Sum of the non-NaN entries, 0 when there is none
    ([DataFrame.sum(axis=1)] on one row, [Series.sum()]). *)
Definition nansum (row : list float) : float :=
  fold_left F.add (filter (fun x => negb (F.is_nan x)) row) F.zero.

(** A comparison result multiplied by 1.0. *)
Definition bool_to_float (b : bool) : float := if b then F.one else F.zero.

Definition fabs (x : float) : float :=
  match x with
  | NaN => NaN
  | PInf | NInf => PInf
  | Fin q => Fin (Qabs q)
  end.

(** Outcome of a call: a returned value or a raised failure.  The
    failure kinds are the ones the specification names, and the
    [ValueError] pandas raises on a slice assignment it refuses. *)
Inductive failure : Type :=
  InvalidSignalValue | MisalignedSeries | UndefinedRatio | ValueError.

Inductive outcome (A : Type) : Type :=
| Returns (a : A)
| Raises (e : failure).
Arguments Returns {A} a.
Arguments Raises {A} e.

(** ** performance/performance.py *)

Module Performance.

(** *** create_drawdowns *)

(** The loop state: the Python list [hwm] and the two Series
    [drawdown] and [duration] that the loop assigns into. *)
Record dd_state : Type := {
  hwm : list float;
  drawdown : Series;
  duration : Series
}.

(** [s[t] = v] for a position of the index. *)
Definition set_at (t : nat) (v : float) (s : Series) : Series :=
  if (t <? length s)%nat then firstn t s ++ v :: skipn (S t) s else s.

(** Before the loop: [hwm = [0]], both Series all NaN. *)
Definition dd_init (equity_curve : Series) : dd_state :=
  {| hwm := [F.zero];
     drawdown := repeat NaN (length equity_curve);
     duration := repeat NaN (length equity_curve) |}.

(** One iteration of [for t in range(1, len(eq_idx))]. *)
Definition dd_step (equity_curve : Series) (st : dd_state) (t : nat)
  : dd_state :=
  let cur_hwm := py_max (nth (t - 1) (hwm st) NaN) (at_ equity_curve t) in
  let hwm' := hwm st ++ [cur_hwm] in
  let drawdown' :=
    set_at t (nth t hwm' NaN - at_ equity_curve t)%float (drawdown st) in
  let dur :=
    if (at_ drawdown' t == F.zero)%float then F.zero
    else (at_ (duration st) (t - 1) + F.one)%float in
  {| hwm := hwm'; drawdown := drawdown'; duration := set_at t dur (duration st) |}.

Definition dd_loop (equity_curve : Series) : dd_state :=
  fold_left (dd_step equity_curve)
            (seq 1 (length equity_curve - 1)) (dd_init equity_curve).

Definition create_drawdowns (equity_curve : Series) : float * float :=
  let st := dd_loop equity_curve in
  (series_max (drawdown st), series_max (duration st)).

(** *** create_sharpe_ratio *)

Section Sharpe.

(** [np.sqrt] on a non-negative finite number.  The square root of a
    rational is not rational in general, so the function is taken as
    given; what is proved holds whatever its rounding. *)
Variable sqrtQ : Q -> Q.

Definition np_sqrt (x : float) : float :=
  match x with
  | NaN | NInf => NaN
  | PInf => PInf
  | Fin q => if Qle_bool 0 q then Fin (sqrtQ q) else NaN
  end.

Definition dropna (s : Series) : Series :=
  filter (fun x => negb (F.is_nan x)) s.

(** [np.mean] of a pandas Series: sum over count of the non-NaN
    entries (0/0 = NaN when there is none). *)
Definition np_mean (s : Series) : float :=
  (nansum s / F.of_nat (length (dropna s)))%float.

(** [np.std] of a pandas Series (ddof = 0): root of the mean squared
    deviation of the non-NaN entries from their mean. *)
Definition np_std (s : Series) : float :=
  let avg := np_mean s in
  let sqr := map (fun x => ((avg - x) * (avg - x))%float) (dropna s) in
  np_sqrt (nansum sqr / F.of_nat (length (dropna s)))%float.

Definition create_sharpe_ratio (returns : Series) (periods : float)
  : float :=
  (np_sqrt periods * np_mean returns / np_std returns)%float.

(** The quantities of the specification's formula, on plain numbers. *)
Definition Qsum (rs : list Q) : Q := fold_left Qplus rs 0.

Definition mean (rs : list Q) : Q :=
  Qsum rs / inject_Z (Z.of_nat (length rs)).

Definition stdev (rs : list Q) : Q :=
  sqrtQ (mean (map (fun r => (mean rs - r) * (mean rs - r)) rs)).

End Sharpe.

End Performance.

(** ** mr_spy_iwm.py *)

Module MrSpyIwm.

(** One row of the [pairs] frame, with the columns the two functions
    below read or write. *)
Record row : Type := {
  sym1_close : float;
  sym2_close : float;
  zscore : float;
  longs : float;
  shorts : float;
  exits : float;
  long_market : float;
  short_market : float
}.

Definition set_triggers (l s e : float) (b : row) : row :=
  {| sym1_close := sym1_close b; sym2_close := sym2_close b;
     zscore := zscore b; longs := l; shorts := s; exits := e;
     long_market := long_market b; short_market := short_market b |}.

Definition set_market (lm sm : float) (b : row) : row :=
  {| sym1_close := sym1_close b; sym2_close := sym2_close b;
     zscore := zscore b; longs := longs b; shorts := shorts b;
     exits := exits b; long_market := lm; short_market := sm |}.

(** The three column assignments from the z-score and the two
    assignments of 0.0 that precede the loop. *)
Definition threshold_row (z_entry_threshold z_exit_threshold : float)
           (b : row) : row :=
  set_market F.zero F.zero
    (set_triggers
       (bool_to_float (zscore b <=? F.neg z_entry_threshold)%float)
       (bool_to_float (z_entry_threshold <=? zscore b)%float)
       (bool_to_float (fabs (zscore b) <=? z_exit_threshold)%float)
       b).

(** The two flags after the three [if] statements of the loop body. *)
Definition latch_step (long_market0 short_market0 : float) (b : row)
  : float * float :=
  let long_market1 :=
    if (longs b == F.one)%float then F.one else long_market0 in
  let short_market1 :=
    if (shorts b == F.one)%float then F.one else short_market0 in
  if (exits b == F.one)%float then (F.zero, F.zero)
  else (long_market1, short_market1).

(** The loop over the rows.  The flags are carried from one iteration
    to the next; the two assignments through [pairs.iloc[i]] write the
    flags into row [i] of the frame, as the comment above them says. *)
Fixpoint latch_loop (long_market0 short_market0 : float) (pairs : list row)
  : list row :=
  match pairs with
  | [] => []
  | b :: rest =>
      let '(lm, sm) := latch_step long_market0 short_market0 b in
      set_market lm sm b :: latch_loop lm sm rest
  end.

Definition create_long_short_market_signals
           (pairs : list row) (z_entry_threshold z_exit_threshold : float)
  : list row :=
  latch_loop F.zero F.zero
    (map (threshold_row z_entry_threshold z_exit_threshold) pairs).

(** The frame built by [create_portfolio_returns]. *)
Record portfolio : Type := {
  positions : Series;
  sym1 : Series;
  sym2 : Series;
  total : Series;
  returns : Series
}.

(** The period returns after the three in-place clean-up calls on the
    column: NaN, then the two infinities, then -1.0, each set to 0.0. *)
Definition clean_returns (total : Series) : Series :=
  replace [F.neg F.one] F.zero
    (replace [PInf; NInf] F.zero
       (fillna F.zero (pct_change total))).

Definition create_portfolio_returns (pairs : list row) : portfolio :=
  let positions :=
    binop F.sub (map long_market pairs) (map short_market pairs) in
  let sym1 :=
    binop F.mul (map (fun c => (F.neg F.one * c)%float)
                     (map sym1_close pairs)) positions in
  let sym2 := binop F.mul (map sym2_close pairs) positions in
  let total := binop F.add sym1 sym2 in
  let returns := clean_returns total in
  {| positions := positions; sym1 := sym1; sym2 := sym2; total := total;
     returns := cumprod (map (fun r => (r + F.one)%float) returns) |}.

(** A frame holding three trigger columns and nothing else of interest. *)
Definition trigger_row (l s e : Q) : row :=
  {| sym1_close := F.zero; sym2_close := F.zero; zscore := F.zero;
     longs := Fin l; shorts := Fin s; exits := Fin e;
     long_market := F.zero; short_market := F.zero |}.

Fixpoint trigger_frame (enter_long enter_short exit_ : list Q) : list row :=
  match enter_long, enter_short, exit_ with
  | l :: ls, s :: ss, e :: es => trigger_row l s e :: trigger_frame ls ss es
  | _, _, _ => []
  end.

End MrSpyIwm.

(** ** The bars and the two accountants *)

(** The columns of the [bars] frame that the accountants read. *)
Record Bars : Type := {
  Open : Series;
  Close : Series
}.

(** The lot size both accountants write into [generate_positions]. *)
Definition lot : float := Fin 100.

(** *** ma_cross.py: MarketOnClosePortfolio *)

Module MarketOnClosePortfolio.

Record t : Type := {
  bars : Bars;
  signals : Series;              (* signals['signal'] *)
  initial_capital : float;
  positions : Series             (* positions[symbol] *)
}.

Record portfolio : Type := {
  holdings : Series;
  cash : Series;
  total : Series;
  returns : Series
}.

Definition generate_positions (signals : Series) : outcome Series :=
  Returns (reindex (length signals) (map (fun s => (lot * s)%float) signals)).

(** [__init__]: fails when [generate_positions] does. *)
Definition init (bars : Bars) (signals : Series) (initial_capital : float)
  : outcome t :=
  match generate_positions signals with
  | Returns p =>
      Returns {| bars := bars; signals := signals;
                 initial_capital := initial_capital; positions := p |}
  | Raises e => Raises e
  end.

Definition pos_diff (self : t) : Series := diff (positions self).

Definition backtest_portfolio (self : t) : portfolio :=
  let n := length (signals self) in
  let holdings :=
    reindex n (binop F.mul (positions self) (Close (bars self))) in
  let cash :=
    reindex n
      (map (fun x => (initial_capital self - x)%float)
           (cumsum (binop F.mul (pos_diff self) (Close (bars self))))) in
  let total := binop F.add cash holdings in
  {| holdings := holdings; cash := cash; total := total;
     returns := pct_change total |}.

End MarketOnClosePortfolio.

(** *** RandomForecastStrategy.py: MarketOnOpenPortfolio *)

(** A frame as the list of its rows; [positions] has the single column
    [symbol]. *)
Definition DataFrame := list (list float).

Definition frame_of_column (s : Series) : DataFrame := map (fun x => [x]) s.

(** [frame * series].  pandas matches the labels of the Series with the
    column labels of the frame and keeps the rows of the frame.  The
    frames of this file have the ticker symbol as their column and the
    Series are labelled by the dates of the bars, so no label is on both
    sides: the product has the columns of the frame followed by one
    column per date, and NaN in every cell. *)
Definition frame_mul (df : DataFrame) (s : Series) : DataFrame :=
  map (fun r => map (fun _ => NaN) r ++ map (fun _ => NaN) s) df.

(** [DataFrame.diff()]: the first row is all NaN. *)
Fixpoint frame_diff_from (prev : list float) (df : DataFrame) : DataFrame :=
  match df with
  | [] => []
  | r :: rest => binop F.sub r prev :: frame_diff_from r rest
  end.

Definition frame_diff (df : DataFrame) : DataFrame :=
  match df with
  | [] => []
  | r :: rest => map (fun _ => NaN) r :: frame_diff_from r rest
  end.

(** [DataFrame.sum(axis=1)]. *)
Definition sum_axis1 (df : DataFrame) : Series := map nansum df.

Module MarketOnOpenPortfolio.

Record t : Type := {
  bars : Bars;
  signals : Series;
  initial_capital : float;
  positions : DataFrame
}.

Record portfolio : Type := {
  value : DataFrame;             (* positions * bars['Open'] *)
  holdings : Series;
  cash : Series;
  total : Series;
  returns : Series
}.

Definition generate_positions (signals : Series) : outcome DataFrame :=
  Returns (frame_of_column
             (reindex (length signals)
                      (map (fun s => (lot * s)%float) signals))).

Definition init (bars : Bars) (signals : Series) (initial_capital : float)
  : outcome t :=
  match generate_positions signals with
  | Returns p =>
      Returns {| bars := bars; signals := signals;
                 initial_capital := initial_capital; positions := p |}
  | Raises e => Raises e
  end.

Definition pos_diff (self : t) : DataFrame := frame_diff (positions self).

Definition backtest_portfolio (self : t) : portfolio :=
  let value := frame_mul (positions self) (Open (bars self)) in
  let n := length value in
  let holdings :=
    reindex n (sum_axis1 (frame_mul (positions self) (Open (bars self)))) in
  let cash :=
    reindex n
      (map (fun x => (initial_capital self - x)%float)
           (cumsum (sum_axis1 (frame_mul (pos_diff self)
                                         (Open (bars self)))))) in
  let total := binop F.add cash holdings in
  {| value := value; holdings := holdings; cash := cash; total := total;
     returns := pct_change total |}.

End MarketOnOpenPortfolio.

(** * Vocabulary of the statements *)

(** ** Drawdown scan *)

Module DrawdownSpec.
Import Performance.

Definition curve (zs : list Z) : Series := map (fun z => Fin (inject_Z z)) zs.

(** The equity curve of the specification's drawdown scenario. *)
Definition scenario2 : Series := curve [100; 90; 95; 80; 85; 120]%Z.

(** What no iteration changes: the seed of [hwm] and the first cell of
    the two Series. *)
Definition untouched (st : dd_state) : Prop :=
  nth 0 (hwm st) NaN = F.zero /\
  at_ (drawdown st) 0 = NaN /\ at_ (duration st) 0 = NaN.

End DrawdownSpec.

(** ** Market-state latch *)

Module LatchSpec.
Import MrSpyIwm.

Definition fires_long (b : row) : Prop := (longs b == F.one)%float = true.

Definition fires_short (b : row) : Prop := (shorts b == F.one)%float = true.

Definition fires_exit (b : row) : Prop := (exits b == F.one)%float = true.

(** An entry that takes effect: its trigger fires on a bar whose exit
    trigger does not. *)
Definition enters_long (b : row) : Prop := fires_long b /\ ~ fires_exit b.

Definition enters_short (b : row) : Prop := fires_short b /\ ~ fires_exit b.

(** An exit trigger fires on one of the bars [lo+1 .. hi]. *)
Definition exit_between (pairs : list row) (lo hi : nat) : Prop :=
  exists k b, (lo < k <= hi)%nat /\ nth_error pairs k = Some b /\ fires_exit b.

(** Entries of opposite direction are always separated by an exit. *)
Definition separated (pairs : list row) : Prop :=
  forall i j bi bj,
    nth_error pairs i = Some bi -> nth_error pairs j = Some bj ->
    enters_long bi -> enters_short bj ->
    exit_between pairs (Nat.min i j) (Nat.max i j).

(** An exit trigger fires on one of the bars [0 .. hi]. *)
Definition exit_upto (pairs : list row) (hi : nat) : Prop :=
  exists k b, (k <= hi)%nat /\ nth_error pairs k = Some b /\ fires_exit b.

(** What the carried flags require of the bars still to come. *)
Definition compatible (lm sm : float) (pairs : list row) : Prop :=
  (lm = F.zero \/ lm = F.one) /\ (sm = F.zero \/ sm = F.one) /\
  (lm = F.one -> sm = F.zero) /\
  (lm = F.one -> forall j bj, nth_error pairs j = Some bj ->
                        enters_short bj -> exit_upto pairs j) /\
  (sm = F.one -> forall i bi, nth_error pairs i = Some bi ->
                        enters_long bi -> exit_upto pairs i).

Definition exclusive (b : row) : Prop :=
  (long_market b * short_market b == F.zero)%float = true.

End LatchSpec.

(** The trigger series of the specification's latch scenario. *)
Definition scenario3 : list MrSpyIwm.row :=
  MrSpyIwm.trigger_frame [0; 1; 0; 0; 0] [0; 0; 0; 1; 0] [0; 0; 1; 0; 0].

(** A frame of two bars whose z-score jumps from -2.5 to 2.5. *)
Definition zscore_jump : list MrSpyIwm.row :=
  map (fun z => {| MrSpyIwm.sym1_close := F.zero; MrSpyIwm.sym2_close := F.zero;
                   MrSpyIwm.zscore := Fin z;
                   MrSpyIwm.longs := NaN; MrSpyIwm.shorts := NaN;
                   MrSpyIwm.exits := NaN;
                   MrSpyIwm.long_market := NaN; MrSpyIwm.short_market := NaN |})
      [- (5 # 2); 5 # 2].

(** Long on bar 0, exit on bar 1, short on bar 2. *)
Definition long_exit_short : list MrSpyIwm.row :=
  MrSpyIwm.trigger_frame [1; 0; 0] [0; 0; 1] [0; 1; 0].

(** ** Accountants *)

(** The cost of the trades on the bars 1 .. t:
    sum over i = 1 .. t of (pos[i] - pos[i-1]) * price[i]. *)
Fixpoint traded (pos price : list Q) (t : nat) : Q :=
  match t with
  | O => 0
  | S k => traded pos price k
           + (nth (S k) pos 0 - nth k pos 0) * nth (S k) price 0
  end.

(** Pairwise combination of two lists of numbers of the same length. *)
Fixpoint map2Q (f : Q -> Q -> Q) (ps cs : list Q) : list Q :=
  match ps, cs with
  | p :: ps', c :: cs' => f p c :: map2Q f ps' cs'
  | _, _ => []
  end.

(** A close-fill accountant over numeric positions and prices. *)
Definition close_book (self : MarketOnClosePortfolio.t)
           (pos price : list Q) (cap : Q) : Prop :=
  MarketOnClosePortfolio.positions self = map Fin pos /\
  Close (MarketOnClosePortfolio.bars self) = map Fin price /\
  MarketOnClosePortfolio.initial_capital self = Fin cap /\
  length (MarketOnClosePortfolio.signals self) = length pos /\
  length price = length pos.

(** An open-fill accountant over numeric positions and prices. *)
Definition open_book (self : MarketOnOpenPortfolio.t)
           (pos price : list Q) (cap : Q) : Prop :=
  MarketOnOpenPortfolio.positions self = frame_of_column (map Fin pos) /\
  Open (MarketOnOpenPortfolio.bars self) = map Fin price /\
  MarketOnOpenPortfolio.initial_capital self = Fin cap /\
  length (MarketOnOpenPortfolio.signals self) = length pos /\
  length price = length pos.

(** One bar, signal 1 (a position of 100 units), price 10, capital 100000. *)
Definition one_bar : Bars := {| Open := [Fin 10]; Close := [Fin 10] |}.

Definition one_bar_close : MarketOnClosePortfolio.t :=
  {| MarketOnClosePortfolio.bars := one_bar;
     MarketOnClosePortfolio.signals := [Fin 1];
     MarketOnClosePortfolio.initial_capital := Fin 100000;
     MarketOnClosePortfolio.positions := [Fin 100] |}.

(** Two bars: flat, then 100 units; prices 10 and 11; capital 1000. *)
Definition two_bars : Bars := {| Open := [Fin 10; Fin 11]; Close := [Fin 10; Fin 11] |}.

Definition two_bars_close : MarketOnClosePortfolio.t :=
  {| MarketOnClosePortfolio.bars := two_bars;
     MarketOnClosePortfolio.signals := [Fin 0; Fin 1];
     MarketOnClosePortfolio.initial_capital := Fin 1000;
     MarketOnClosePortfolio.positions := [Fin 0; Fin 100] |}.

Definition two_bars_open : MarketOnOpenPortfolio.t :=
  {| MarketOnOpenPortfolio.bars := two_bars;
     MarketOnOpenPortfolio.signals := [Fin 0; Fin 1];
     MarketOnOpenPortfolio.initial_capital := Fin 1000;
     MarketOnOpenPortfolio.positions := [[Fin 0]; [Fin 100]] |}.

(** ** Pairs-trading equity curve and Sharpe ratio *)

(** One cell through the three clean-up calls. *)
Definition clean_cell (x : float) : float :=
  let y := if F.is_nan x then F.zero else x in
  let z := if existsb (fun o => (y == o)%float) [PInf; NInf]
           then F.zero else y in
  if existsb (fun o => (z == o)%float) [F.neg F.one] then F.zero else z.

(** A computable root on the rationals, exact on quotients of perfect
    squares; it instantiates the abstract [np.sqrt] in examples. *)
Definition isqrtQ (q : Q) : Q :=
  Z.sqrt (Qnum (Qred q)) # Pos.sqrt (Qden (Qred q)).

(** The returns of the specification's Sharpe scenario. *)
Definition scenario4 : list Q := [1 # 100; - (1 # 100); 1 # 100; - (1 # 100)].

(** ** The drawdown scan as a recurrence *)

(** One bar of the scan from the previous high-water mark and duration:
    the new mark, the drawdown and the duration. *)
Definition scan_step (prev : float * float) (e : float)
  : float * float * float :=
  let h := py_max (fst prev) e in
  let d := (h - e)%float in
  (h, d, if (d == F.zero)%float then F.zero else (snd prev + F.one)%float).

Definition hw (x : float * float * float) : float := fst (fst x).
Definition dd (x : float * float * float) : float := snd (fst x).
Definition du (x : float * float * float) : float := snd x.

Fixpoint dd_scan (prev : float * float) (rest : Series)
  : list (float * float * float) :=
  match rest with
  | [] => []
  | e :: r =>
      let x := scan_step prev e in x :: dd_scan (hw x, du x) r
  end.

Definition nan3 : float * float * float := (NaN, NaN, NaN).

(** The state of the loop after the iterations t = 1 .. k on the curve
    [e :: rest]. *)
Definition dd_state_at (rest : Series) (k : nat) : Performance.dd_state :=
  let sc := firstn k (dd_scan (F.zero, NaN) rest) in
  {| Performance.hwm := F.zero :: map hw sc;
     Performance.drawdown := NaN :: map dd sc ++ repeat NaN (length rest - k);
     Performance.duration := NaN :: map du sc ++ repeat NaN (length rest - k) |}.

(** The previous mark and duration that iteration [S k] reads. *)
Definition prev_at (rest : Series) (k : nat) : float * float :=
  match k with
  | O => (F.zero, NaN)
  | S j => (hw (nth j (dd_scan (F.zero, NaN) rest) nan3),
            du (nth j (dd_scan (F.zero, NaN) rest) nan3))
  end.

(** [max(m, q)] on numbers, as Python's [max] computes it: [m] unless
    [q] is strictly greater. *)
Definition qmax (m q : Q) : Q := if Qle_bool q m then m else q.

(** Running maxima of [qs] above the seed [m]. *)
Fixpoint run_max (m : Q) (qs : list Q) : list Q :=
  match qs with
  | [] => []
  | q :: r => qmax m q :: run_max (qmax m q) r
  end.

(** Drawdowns of [qs] below the running maximum seeded with [m]. *)
Fixpoint run_dd (m : Q) (qs : list Q) : list Q :=
  match qs with
  | [] => []
  | q :: r => (qmax m q + - q) :: run_dd (qmax m q) r
  end.

(** A duration cell: NaN or a number that is not negative. *)
Definition dur_ok (u : float) : Prop :=
  match u with
  | NaN => True
  | Fin q => 0 <= q
  | _ => False
  end.

(** A flag cell holds 0.0 or 1.0. *)
Definition is_flag (x : float) : Prop := x = F.zero \/ x = F.one.

(** A bar whose z-score is undefined. *)
Definition nan_bar : MrSpyIwm.row :=
  {| MrSpyIwm.sym1_close := F.zero; MrSpyIwm.sym2_close := F.zero;
     MrSpyIwm.zscore := NaN; MrSpyIwm.longs := NaN;
     MrSpyIwm.shorts := NaN; MrSpyIwm.exits := NaN;
     MrSpyIwm.long_market := NaN; MrSpyIwm.short_market := NaN |}.

(** ** The pairs-trading portfolio on numbers *)

(** The columns of [pairs] that [create_portfolio_returns] reads hold
    the numbers [c1], [c2] (closes), [lm], [sm] (occupancy flags). *)
Definition numeric_pairs (pairs : list MrSpyIwm.row) (c1 c2 lm sm : list Q)
  : Prop :=
  map MrSpyIwm.sym1_close pairs = map Fin c1 /\
  map MrSpyIwm.sym2_close pairs = map Fin c2 /\
  map MrSpyIwm.long_market pairs = map Fin lm /\
  map MrSpyIwm.short_market pairs = map Fin sm.

(** The period return kept after the clean-up: 0 when the previous or
    the current total is 0, else current / previous - 1. *)
Definition period_return (prev cur : Q) : Q :=
  if Qeq_bool prev 0 || Qeq_bool cur 0 then 0 else cur / prev - 1.

(** The same value, computed the way the code does: division, then the
    test against -1. *)
Definition qclean (prev cur : Q) : Q :=
  match Qcompare prev 0 with
  | Eq => 0
  | _ => if Qeq_bool (cur / prev + - (1)) (- (1)) then 0
         else cur / prev + - (1)
  end.

Fixpoint qcleans (prev : Q) (rest : list Q) : list Q :=
  match rest with
  | [] => []
  | cur :: r => qclean prev cur :: qcleans cur r
  end.

Fixpoint qprods (g : Q) (rs : list Q) : list Q :=
  match rs with
  | [] => []
  | r :: rs' => g * (r + 1) :: qprods (g * (r + 1)) rs'
  end.

(** The total column as a list of numbers. *)
Definition totals (c1 c2 lm sm : list Q) : list Q :=
  let pos := map2Q (fun l s => l + - s) lm sm in
  map2Q Qplus (map2Q Qmult (map (fun c => - (1) * c) c1) pos)
        (map2Q Qmult c2 pos).

(** A numeric frame of four bars: flat, long, long, flat. *)
Definition four_bars : list MrSpyIwm.row :=
  map (fun q : Q * Q * Q * Q =>
         let '(c1, c2, lm, sm) := q in
         {| MrSpyIwm.sym1_close := Fin c1; MrSpyIwm.sym2_close := Fin c2;
            MrSpyIwm.zscore := NaN; MrSpyIwm.longs := NaN;
            MrSpyIwm.shorts := NaN; MrSpyIwm.exits := NaN;
            MrSpyIwm.long_market := Fin lm; MrSpyIwm.short_market := Fin sm |})
      [(10, 20, 0, 0); (10, 20, 1, 0); (10, 22, 1, 0); (10, 23, 0, 0)].

(** Three bars: 100 units held from the first bar, sold on the third;
    prices 10, 11, 12; capital 1000. *)
Definition three_bars : Bars :=
  {| Open := [Fin 10; Fin 11; Fin 12]; Close := [Fin 10; Fin 11; Fin 12] |}.

Definition three_bars_close : MarketOnClosePortfolio.t :=
  {| MarketOnClosePortfolio.bars := three_bars;
     MarketOnClosePortfolio.signals := [Fin 1; Fin 1; Fin 0];
     MarketOnClosePortfolio.initial_capital := Fin 1000;
     MarketOnClosePortfolio.positions := [Fin 100; Fin 100; Fin 0] |}.


(** ** ma_cross.py: MovingAverageCrossStrategy *)

(** The last [w] entries of [s] up to position [t]. *)
Definition window (w t : nat) (s : Series) : list float :=
  firstn w (skipn (S t - w) s).

(** [Series.rolling(w).mean()] at position [t]: NaN until [w] entries
    are available and whenever the window holds a NaN, else the mean of
    the window. *)
Definition rolling_mean_at (w : nat) (s : Series) (t : nat) : float :=
  if (S t <? w)%nat then NaN
  else if existsb F.is_nan (window w t s) then NaN
       else (fold_left F.add (window w t s) F.zero / F.of_nat w)%float.

Definition rolling_mean (w : nat) (s : Series) : Series :=
  map (rolling_mean_at w s) (seq 0 (length s)).

Module MovingAverageCrossStrategy.

Record t : Type := {
  bars : Bars;
  short_window : nat;
  long_window : nat
}.

Record signals : Type := {
  signal : Series;
  short_mavg : Series;
  long_mavg : Series;
  positions : Series
}.

(** The cell written at position [i] by the slice assignment
    [signal[short_window:] = np.where(short > long, 1.0, 0.0)]; the
    cells before [short_window] keep the initial 0.0. *)
Definition signal_at (short_window : nat) (short long : Series) (i : nat)
  : float :=
  if (i <? short_window)%nat then F.zero
  else bool_to_float (at_ long i <? at_ short i)%float.

(** The frame [signals] once the slice assignment has been accepted. *)
Definition signals_frame (self : t) : signals :=
  let n := length (Close (bars self)) in
  let short := rolling_mean (short_window self) (Close (bars self)) in
  let long := rolling_mean (long_window self) (Close (bars self)) in
  let signal := map (signal_at (short_window self) short long) (seq 0 n) in
  {| signal := signal; short_mavg := short; long_mavg := long;
     positions := diff signal |}.

(** [generate_signals].  The slice [signal[short_window:]] is assigned an
    array: pandas compares the length of the array with the length it
    computes for the slice, and when the slice starts beyond the last
    bar that length is negative while the array is empty, so the
    assignment raises [ValueError] (a slice that starts at the end is
    empty and accepted). *)
Definition generate_signals (self : t) : outcome signals :=
  if (length (Close (bars self)) <? short_window self)%nat
  then Raises ValueError
  else Returns (signals_frame self).

End MovingAverageCrossStrategy.

(** ** RandomForecastStrategy.py: RandomForecastingStrategy *)

(** [np.sign]. *)
Definition np_sign (x : float) : float :=
  match x with
  | NaN => NaN
  | PInf => F.one
  | NInf => F.neg F.one
  | Fin q => match Qcompare q 0 with
             | Lt => Fin (- (1))
             | Eq => Fin 0
             | Gt => Fin 1
             end
  end.

(** The slice assignment [s[0:k] = 0.0]. *)
Definition zero_first (k : nat) (s : Series) : Series :=
  repeat F.zero (Nat.min k (length s)) ++ skipn k s.

Module RandomForecastingStrategy.

(** [generate_signals], with the output of [np.random.randn] as an
    argument: the sign of every draw, the first five set to 0.0. *)
Definition generate_signals (draws : Series) : Series :=
  zero_first 5 (map np_sign draws).

End RandomForecastingStrategy.

(** ** snp_forecast.py: MarketIntradayPortfolio *)

Module MarketIntradayPortfolio.

Record t : Type := {
  bars : Bars;
  signals : Series;
  initial_capital : float;
  positions : Series
}.

Record portfolio : Type := {
  price_diff : Series;
  profit : Series;
  total : Series;
  returns : Series
}.

Definition generate_positions (signals : Series) : outcome Series :=
  Returns (reindex (length signals) (map (fun s => (Fin 500 * s)%float) signals)).

Definition init (bars : Bars) (signals : Series) (initial_capital : float)
  : outcome t :=
  match generate_positions signals with
  | Returns p =>
      Returns {| bars := bars; signals := signals;
                 initial_capital := initial_capital; positions := p |}
  | Raises e => Raises e
  end.

Definition backtest_portfolio (self : t) : portfolio :=
  let n := length (positions self) in
  let price_diff :=
    zero_first 5 (reindex n (binop F.sub (Close (bars self))
                                   (Open (bars self)))) in
  let profit := reindex n (binop F.mul (positions self) price_diff) in
  let total :=
    reindex n (map (fun x => (initial_capital self + x)%float)
                   (cumsum profit)) in
  {| price_diff := price_diff; profit := profit; total := total;
     returns := pct_change total |}.

End MarketIntradayPortfolio.

(** The profit booked on bar [i]: nothing on the first five bars, then
    the position times the open-to-close move. *)
Definition intraday_profit (pos opens closes : list Q) (i : nat) : Q :=
  if (i <? 5)%nat then 0
  else nth i pos 0 * (nth i closes 0 - nth i opens 0).

(** f 0 + f 1 + ... + f t. *)
Fixpoint cum (f : nat -> Q) (t : nat) : Q :=
  match t with
  | O => f O
  | S k => cum f k + f (S k)
  end.

(** An intraday accountant over numeric positions and prices. *)
Definition intraday_book (self : MarketIntradayPortfolio.t)
           (pos opens closes : list Q) (cap : Q) : Prop :=
  MarketIntradayPortfolio.positions self = map Fin pos /\
  Open (MarketIntradayPortfolio.bars self) = map Fin opens /\
  Close (MarketIntradayPortfolio.bars self) = map Fin closes /\
  MarketIntradayPortfolio.initial_capital self = Fin cap /\
  length opens = length pos /\ length closes = length pos.

(** A signal cell holds -1, 0 or 1. *)
Definition in_domain (x : float) : Prop :=
  x = Fin (- (1)) \/ x = Fin 0 \/ x = Fin 1.

(** An order cell compares equal to -1, 0 or 1. *)
Definition is_order (x : float) : bool :=
  (x == Fin (- (1)))%float || (x == Fin 0)%float || (x == Fin 1)%float.

(** Four rising closes with windows 2 and 3, and with both windows 2. *)
Definition rising_bars : Bars :=
  {| Open := [Fin 1; Fin 2; Fin 3; Fin 4]; Close := [Fin 1; Fin 2; Fin 3; Fin 4] |}.

Definition cross_2_3 : MovingAverageCrossStrategy.t :=
  {| MovingAverageCrossStrategy.bars := rising_bars;
     MovingAverageCrossStrategy.short_window := 2;
     MovingAverageCrossStrategy.long_window := 3 |}.

Definition cross_2_2 : MovingAverageCrossStrategy.t :=
  {| MovingAverageCrossStrategy.bars := rising_bars;
     MovingAverageCrossStrategy.short_window := 2;
     MovingAverageCrossStrategy.long_window := 2 |}.


(** [zero_first] and the running sum on plain numbers. *)
Definition zero_firstQ (k : nat) (xs : list Q) : list Q :=
  repeat 0 (Nat.min k (length xs)) ++ skipn k xs.

Fixpoint qsums (a : Q) (xs : list Q) : list Q :=
  match xs with
  | [] => []
  | x :: r => a + x :: qsums (a + x) r
  end.

(** Seven bars, 500 units long throughout; capital 1000. *)
Definition seven_bars : Bars :=
  {| Open := map Fin [10; 10; 10; 10; 10; 10; 10];
     Close := map Fin [11; 11; 11; 11; 11; 12; 9] |}.

Definition seven_bars_intraday : MarketIntradayPortfolio.t :=
  {| MarketIntradayPortfolio.bars := seven_bars;
     MarketIntradayPortfolio.signals := map Fin [1; 1; 1; 1; 1; 1; 1];
     MarketIntradayPortfolio.initial_capital := Fin 1000;
     MarketIntradayPortfolio.positions :=
       map Fin [500; 500; 500; 500; 500; 500; 500] |}.

(** The number of units a signal cell stands for after the sizer. *)
Definition units (x : float) : Q :=
  match x with
  | Fin q => 100 * q
  | _ => 0
  end.

(** * Properties *)

(** ** Basic facts on the number model *)

Lemma eqb_refl_finite (q : Q) : (Fin q == Fin q)%float = true.
Proof. simpl. apply Qeq_bool_iff. reflexivity. Qed.

Lemma eqb_nan_l (x : float) : (NaN == x)%float = false.
Proof. reflexivity. Qed.

Lemma eqb_nan_r (x : float) : (x == NaN)%float = false.
Proof. destruct x; reflexivity. Qed.

Lemma eqb_Fin (a b : Q) : (Fin a == Fin b)%float = true <-> a == b.
Proof. simpl. apply Qeq_bool_iff. Qed.

Lemma binop_length (f : float -> float -> float) (a b : Series) :
  length (binop f a b) = Nat.max (length a) (length b).
Proof.
  revert b; induction a as [|x a IH]; intros [|y b]; simpl;
    rewrite ?length_map; auto.
Qed.

Lemma binop_nth (f : float -> float -> float) (a b : Series) (t : nat) :
  (t < length a)%nat -> (t < length b)%nat ->
  at_ (binop f a b) t = f (at_ a t) (at_ b t).
Proof.
  unfold at_. revert b t; induction a as [|x a IH]; intros [|y b] [|t] Ha Hb;
    simpl in *; try lia; auto.
  apply IH; lia.
Qed.

Lemma reindex_same (n : nat) (s : Series) : length s = n -> reindex n s = s.
Proof.
  intros <-. unfold reindex. rewrite Nat.sub_diag. simpl.
  rewrite app_nil_r. apply firstn_all.
Qed.

(** ** Drawdown scan *)

Module DrawdownFacts.
Import Performance DrawdownSpec.

Lemma set_at_length (t : nat) (v : float) (s : Series) :
  length (set_at t v s) = length s.
Proof.
  unfold set_at. destruct (Nat.ltb_spec t (length s)) as [H|H]; auto.
  rewrite length_app, length_firstn. cbn [length]. rewrite length_skipn. lia.
Qed.

Lemma set_at_head (t : nat) (v : float) (s : Series) :
  at_ (set_at (S t) v s) 0 = at_ s 0.
Proof.
  unfold set_at, at_. destruct (Nat.ltb_spec (S t) (length s)) as [H|H]; auto.
  destruct s; simpl in *; [lia | reflexivity].
Qed.

Lemma dd_step_untouched (equity_curve : Series) (st : dd_state) (t : nat) :
  untouched st -> untouched (dd_step equity_curve st (S t)).
Proof.
  intros (Hh & Hd & Hu). unfold untouched, dd_step. simpl hwm.
  simpl drawdown. simpl duration. rewrite !set_at_head.
  repeat split; auto.
  destruct (hwm st); simpl in *; auto. discriminate.
Qed.

Lemma dd_fold_untouched (equity_curve : Series) (ts : list nat) :
  Forall (fun t => (1 <= t)%nat) ts ->
  forall st, untouched st ->
        untouched (fold_left (dd_step equity_curve) ts st).
Proof.
  induction 1 as [|t ts Ht _ IH]; intros st Hst; simpl; auto.
  apply IH. destruct t; [lia|]. now apply dd_step_untouched.
Qed.

Lemma dd_loop_untouched (equity_curve : Series) :
  equity_curve <> [] -> untouched (dd_loop equity_curve).
Proof.
  intros Hne. unfold dd_loop. apply dd_fold_untouched.
  - apply Forall_forall. intros t Ht. apply in_seq in Ht. lia.
  - destruct equity_curve; [congruence|]. repeat split.
Qed.

End DrawdownFacts.

(** C2.  The scan does not seed the high-water mark with the first equity
    value: for every non-empty curve [hwm[0]] is the constant 0 and
    [drawdown[0]] is never assigned (NaN), the first equity value being
    read by no iteration.  On the curve [100, 90] this gives
    [hwm[0] = 0 < 100 = equity[0]], so neither [hwm[0] = equity[0]] nor
    [hwm[0] >= equity[0]] nor [drawdown[0] >= 0] holds. *)
Theorem drawdown_hwm_seed (e : float) (rest : Series) :
  let st := Performance.dd_loop (e :: rest) in
  nth 0 (Performance.hwm st) NaN = F.zero /\
  at_ (Performance.drawdown st) 0 = NaN /\
  let st2 := Performance.dd_loop (DrawdownSpec.curve [100; 90]%Z) in
  Performance.hwm st2 = [Fin 0; Fin 90] /\
  (nth 0 (Performance.hwm st2) NaN == Fin 100)%float = false /\
  (Fin 100 <=? nth 0 (Performance.hwm st2) NaN)%float = false /\
  (F.zero <=? at_ (Performance.drawdown st2) 0)%float = false.
Proof.
  intros st.
  destruct (DrawdownFacts.dd_loop_untouched (e :: rest)) as (Hh & Hd & _);
    [discriminate|].
  split; [exact Hh|]. split; [exact Hd|].
  vm_compute. repeat split.
Qed.

(** C4.  On the equity curve [100, 90, 95, 80, 85, 120] the function
    returns the pair (15, 2), not (20, 3): the peak of 100 at the first
    bar is never taken into the high-water mark. *)
Theorem create_drawdowns_scenario2 :
  Performance.create_drawdowns DrawdownSpec.scenario2 = (Fin 15, Fin 2) /\
  Performance.hwm (Performance.dd_loop DrawdownSpec.scenario2)
  = DrawdownSpec.curve [0; 90; 95; 95; 95; 120]%Z /\
  (fst (Performance.create_drawdowns DrawdownSpec.scenario2) == Fin 20)%float
  = false /\
  (snd (Performance.create_drawdowns DrawdownSpec.scenario2) == Fin 3)%float
  = false.
Proof. vm_compute. repeat split. Qed.

(** ** Market-state latch *)

Module LatchFacts.
Import MrSpyIwm LatchSpec.

Lemma separated_tail (b : row) (rest : list row) :
  separated (b :: rest) -> separated rest.
Proof.
  intros H i j bi bj Hi Hj Hl Hs.
  destruct (H (S i) (S j) bi bj Hi Hj Hl Hs) as (k & bk & Hk & Hn & He).
  destruct k as [|k]; [simpl in Hk; lia|].
  exists k, bk. simpl in Hk. repeat split; auto; lia.
Qed.

Lemma exit_upto_tail (b : row) (rest : list row) (j : nat) :
  ~ fires_exit b -> exit_upto (b :: rest) (S j) -> exit_upto rest j.
Proof.
  intros Hb (k & bk & Hk & Hn & He).
  destruct k as [|k]; simpl in Hn.
  - inversion Hn; subst. contradiction.
  - exists k, bk. repeat split; auto; lia.
Qed.

Lemma exit_between_head (b : row) (rest : list row) (j : nat) :
  exit_between (b :: rest) 0 (S j) -> exit_upto rest j.
Proof.
  intros (k & bk & Hk & Hn & He).
  destruct k as [|k]; [lia|]. exists k, bk. repeat split; auto; lia.
Qed.

Lemma no_exit_at_head (b : row) (rest : list row) :
  ~ exit_upto (b :: rest) 0 \/ fires_exit b.
Proof.
  destruct (exits b == F.one)%float eqn:E; [right; exact E|left].
  intros (k & bk & Hk & Hn & He). assert (k = 0)%nat by lia; subst.
  simpl in Hn. inversion Hn; subst. unfold fires_exit in He. congruence.
Qed.

End LatchFacts.

Module LatchProof.
Import MrSpyIwm LatchSpec LatchFacts.

Lemma zero_not_one : F.zero <> F.one.
Proof. discriminate. Qed.

Lemma exclusive_flags (lm sm : float) (b : row) :
  (lm = F.zero \/ lm = F.one) -> (sm = F.zero \/ sm = F.one) ->
  (lm = F.one -> sm = F.zero) -> exclusive (set_market lm sm b).
Proof.
  unfold exclusive. simpl.
  intros [-> | ->] [-> | ->] H; try reflexivity.
  specialize (H eq_refl). discriminate.
Qed.

Lemma compatible_flat (pairs : list row) : compatible F.zero F.zero pairs.
Proof.
  repeat split; auto; intros H; exfalso; now apply zero_not_one.
Qed.

(** The flags after one bar, and what they require of the later bars. *)
Lemma latch_step_compatible (lm sm : float) (b : row) (rest : list row) :
  separated (b :: rest) -> compatible lm sm (b :: rest) ->
  compatible (fst (latch_step lm sm b)) (snd (latch_step lm sm b)) rest.
Proof.
  intros Hsep (Hlm & Hsm & Hex & HL & HS). unfold latch_step.
  destruct (exits b == F.one)%float eqn:Ee; simpl; [apply compatible_flat|].
  assert (Hne : ~ fires_exit b) by (unfold fires_exit; congruence).
  assert (Hno : ~ exit_upto (b :: rest) 0)
    by (destruct (no_exit_at_head b rest); tauto).
  destruct (longs b == F.one)%float eqn:El;
    destruct (shorts b == F.one)%float eqn:Es.
  - exfalso.
    destruct (Hsep 0%nat 0%nat b b eq_refl eq_refl) as (k & _ & Hk & _);
      [split; assumption | split; assumption | simpl in Hk; lia].
  - assert (Hs0 : sm = F.zero).
    { destruct Hsm as [?|H1]; auto. exfalso. apply Hno.
      apply (HS H1 0%nat b eq_refl). split; assumption. }
    subst sm. repeat split; auto.
    + intros _ j bj Hj Hs. apply (exit_between_head b).
      apply (Hsep 0%nat (S j) b bj eq_refl Hj); [split; assumption | exact Hs].
    + intros H; exfalso; now apply zero_not_one.
  - assert (Hl0 : lm = F.zero).
    { destruct Hlm as [?|H1]; auto. exfalso. apply Hno.
      apply (HL H1 0%nat b eq_refl). split; assumption. }
    subst lm. repeat split; auto.
    + intros H; exfalso; now apply zero_not_one.
    + intros _ i bi Hi Hl. apply (exit_between_head b).
      apply (Hsep (S i) 0%nat bi b Hi eq_refl); [exact Hl | split; assumption].
  - repeat split; auto.
    + intros H j bj Hj Hs. apply (exit_upto_tail b); auto.
      apply (HL H (S j) bj Hj Hs).
    + intros H i bi Hi Hl. apply (exit_upto_tail b); auto.
      apply (HS H (S i) bi Hi Hl).
Qed.

Lemma latch_loop_exclusive (pairs : list row) :
  forall lm sm, separated pairs -> compatible lm sm pairs ->
           Forall exclusive (latch_loop lm sm pairs).
Proof.
  induction pairs as [|b rest IH]; intros lm sm Hsep Hc; simpl; [constructor|].
  pose proof (latch_step_compatible lm sm b rest Hsep Hc) as Hc'.
  destruct (latch_step lm sm b) as [lm' sm'] eqn:E. simpl in Hc'.
  constructor.
  - destruct Hc' as (H1 & H2 & H3 & _). now apply exclusive_flags.
  - apply IH; [eapply separated_tail; eassumption | exact Hc'].
Qed.

End LatchProof.

(** C3, as stated, fails: an enter_long on bar 0 followed by an
    enter_short on bar 1 with no exit leaves both flags at 1 on bar 1. *)
Lemma latch_both_flags_set :
  let out := MrSpyIwm.latch_loop F.zero F.zero
               (MrSpyIwm.trigger_frame [1; 0] [0; 1] [0; 0]) in
  map MrSpyIwm.long_market out = [Fin 1; Fin 1] /\
  map MrSpyIwm.short_market out = [Fin 0; Fin 1] /\
  map (fun b => (MrSpyIwm.long_market b * MrSpyIwm.short_market b == F.zero)%float)
      out = [true; false] /\
  let out2 := MrSpyIwm.create_long_short_market_signals
                zscore_jump (Fin 2) (Fin 1) in
  map MrSpyIwm.longs out2 = [Fin 1; Fin 0] /\
  map MrSpyIwm.shorts out2 = [Fin 0; Fin 1] /\
  map MrSpyIwm.exits out2 = [Fin 0; Fin 0] /\
  map (fun b => (MrSpyIwm.long_market b * MrSpyIwm.short_market b == F.zero)%float)
      out2 = [true; false].
Proof. vm_compute. repeat split. Qed.

(** C3, amended.  When every two entries of opposite direction that take
    effect are separated by an exit trigger on a later bar up to the
    second of them, the two occupancy flags written by the loop are
    mutually exclusive on every bar. *)
Theorem latch_exclusive_when_separated (pairs : list MrSpyIwm.row) :
  LatchSpec.separated pairs ->
  forall t b,
    nth_error (MrSpyIwm.latch_loop F.zero F.zero pairs) t = Some b ->
    (MrSpyIwm.long_market b * MrSpyIwm.short_market b == F.zero)%float = true.
Proof.
  intros Hsep t b Ht.
  pose proof (LatchProof.latch_loop_exclusive pairs F.zero F.zero Hsep
                (LatchProof.compatible_flat pairs)) as Hall.
  rewrite Forall_forall in Hall. apply Hall.
  eapply nth_error_In; eassumption.
Qed.

(** C6, as stated, fails: the exit on bar 2 clears the long flag on that
    same bar, so [long_market] is not [0, 1, 1, 0, 0]. *)
Lemma latch_scenario3_not_as_claimed :
  map MrSpyIwm.long_market (MrSpyIwm.latch_loop F.zero F.zero scenario3)
  <> [Fin 0; Fin 1; Fin 1; Fin 0; Fin 0].
Proof. vm_compute. discriminate. Qed.

(** C6, amended.  On the scenario's triggers the loop writes
    [long_market = [0, 1, 0, 0, 0]] and [short_market = [0, 0, 0, 1, 1]]. *)
Theorem latch_scenario3 :
  map MrSpyIwm.long_market (MrSpyIwm.latch_loop F.zero F.zero scenario3)
  = [Fin 0; Fin 1; Fin 0; Fin 0; Fin 0] /\
  map MrSpyIwm.short_market (MrSpyIwm.latch_loop F.zero F.zero scenario3)
  = [Fin 0; Fin 0; Fin 0; Fin 1; Fin 1].
Proof. vm_compute. split; reflexivity. Qed.

Lemma long_exit_short_separated : LatchSpec.separated long_exit_short.
Proof.
  intros i j bi bj Hi Hj [Hl _] [Hs _].
  unfold LatchSpec.fires_long in Hl. unfold LatchSpec.fires_short in Hs.
  destruct i as [|[|[|i]]]; vm_compute in Hi;
    try (destruct i; discriminate);
    injection Hi as <-; vm_compute in Hl; try discriminate.
  destruct j as [|[|[|j]]]; vm_compute in Hj;
    try (destruct j; discriminate);
    injection Hj as <-; vm_compute in Hs; try discriminate.
  exists 1%nat, (MrSpyIwm.trigger_row 0 0 1).
  repeat split; simpl; try lia.
Qed.

Lemma latch_exclusive_when_separated_witness :
  LatchSpec.separated long_exit_short /\
  (F.zero * F.one == F.zero)%float = true.
Proof.
  split; [exact long_exit_short_separated|].
  exact (latch_exclusive_when_separated long_exit_short
           long_exit_short_separated 2
           (MrSpyIwm.set_market F.zero F.one (MrSpyIwm.trigger_row 0 1 0))
           eq_refl).
Defined.

(** ** Position sizer *)

Lemma map_length_reindex (f : float -> float) (s : Series) :
  reindex (length s) (map f s) = map f s.
Proof. apply reindex_same. apply length_map. Qed.

Lemma at_map_scale (c : float) (s : Series) (t : nat) :
  at_ (map (fun x => (c * x)%float) s) t = (c * at_ s t)%float.
Proof.
  unfold at_. revert t; induction s as [|x s IH]; intros [|t]; simpl; auto.
  - destruct c; reflexivity.
  - destruct c; reflexivity.
Qed.

(** C9, as stated, fails: the signal 2 lies outside {-1, 0, 1}, and both
    sizers return the position 200 for it instead of failing. *)
Lemma generate_positions_accepts_2 :
  ~ (Fin 2 == Fin (-1))%float = true /\ ~ (Fin 2 == Fin 0)%float = true /\
  ~ (Fin 2 == Fin 1)%float = true /\
  MarketOnClosePortfolio.generate_positions [Fin 2] = Returns [Fin 200] /\
  MarketOnOpenPortfolio.generate_positions [Fin 2] = Returns [[Fin 200]] /\
  MarketOnClosePortfolio.generate_positions [Fin 2]
  <> Raises InvalidSignalValue /\
  MarketOnOpenPortfolio.generate_positions [Fin 2]
  <> Raises InvalidSignalValue.
Proof. vm_compute. repeat split; discriminate. Qed.

(** C9, amended.  The sizers check nothing and never fail: for every
    signal series, with values inside or outside {-1, 0, 1}, they return
    a position series of the same length with
    [position[t] = 100 * signal[t]] on every bar (one cell per row in the
    open-fill accountant). *)
Theorem generate_positions_scales (signals : Series) (t : nat) :
  (exists ps,
      MarketOnClosePortfolio.generate_positions signals = Returns ps /\
      length ps = length signals /\
      at_ ps t = (lot * at_ signals t)%float) /\
  (exists ps,
      MarketOnOpenPortfolio.generate_positions signals
      = Returns (frame_of_column ps) /\
      length ps = length signals /\
      at_ ps t = (lot * at_ signals t)%float).
Proof.
  unfold MarketOnClosePortfolio.generate_positions,
    MarketOnOpenPortfolio.generate_positions.
  rewrite map_length_reindex.
  split; eexists; (split; [reflexivity|]);
    (split; [apply length_map | apply at_map_scale]).
Qed.

(** ** The cash ledger of the two accountants *)

Module LedgerFacts.

Lemma traded_shift (p x c0 c : Q) (ps cs : list Q) (k : nat) :
  traded (p :: x :: ps) (c0 :: c :: cs) (S k)
  == (x - p) * c + traded (x :: ps) (c :: cs) k.
Proof.
  induction k as [|k IH].
  - simpl. ring.
  - change (traded (p :: x :: ps) (c0 :: c :: cs) (S (S k)))
      with (traded (p :: x :: ps) (c0 :: c :: cs) (S k)
            + (nth (S k) (x :: ps) 0 - nth k (x :: ps) 0)
              * nth (S k) (c :: cs) 0).
    rewrite IH.
    change (traded (x :: ps) (c :: cs) (S k))
      with (traded (x :: ps) (c :: cs) k
            + (nth (S k) (x :: ps) 0 - nth k (x :: ps) 0)
              * nth (S k) (c :: cs) 0).
    ring.
Qed.

Lemma cumsum_from_length (a : float) (s : Series) :
  length (cumsum_from a s) = length s.
Proof.
  revert a; induction s as [|x s IH]; intros a; simpl; auto.
  destruct (F.is_nan x); simpl; now rewrite IH.
Qed.

Lemma diff_from_length (p : float) (s : Series) :
  length (diff_from p s) = length s.
Proof. revert p; induction s; intros; simpl; auto. Qed.

Lemma diff_length (s : Series) : length (diff s) = length s.
Proof. destruct s; simpl; auto using diff_from_length. Qed.

Lemma reindex_length (n : nat) (s : Series) : length (reindex n s) = n.
Proof.
  unfold reindex. rewrite length_firstn, length_app, repeat_length. lia.
Qed.

Lemma at_map (f : float -> float) (l : Series) (t : nat) :
  (t < length l)%nat -> at_ (map f l) t = f (at_ l t).
Proof.
  intros H. unfold at_.
  rewrite (nth_indep _ NaN (f NaN)) by now rewrite length_map.
  apply map_nth.
Qed.

Lemma at_repeat (x : float) (n t : nat) :
  (t < n)%nat -> at_ (repeat x n) t = x.
Proof.
  intros H. unfold at_.
  rewrite (nth_indep _ NaN x) by now rewrite repeat_length.
  apply nth_repeat.
Qed.

(** Close-fill: the running sum after the first bar. *)
Lemma close_ledger (ps cs : list Q) :
  forall (c0 a p : Q) (k : nat),
    length cs = length ps -> (k < length ps)%nat ->
    exists q,
      nth k (cumsum_from (Fin a)
               (binop F.mul (diff_from (Fin p) (map Fin ps)) (map Fin cs)))
          NaN = Fin q /\
      q == a + traded (p :: ps) (c0 :: cs) (S k).
Proof.
  revert cs; induction ps as [|x ps IH]; intros [|c cs] c0 a p k Hl Hk;
    simpl in Hl, Hk; try lia.
  change (cumsum_from (Fin a)
            (binop F.mul (diff_from (Fin p) (map Fin (x :: ps)))
                   (map Fin (c :: cs))))
    with (Fin (a + (x + - p) * c)
          :: cumsum_from (Fin (a + (x + - p) * c))
               (binop F.mul (diff_from (Fin x) (map Fin ps)) (map Fin cs))).
  destruct k as [|k].
  - exists (a + (x + - p) * c). split; [reflexivity|].
    cbn [traded nth]. ring.
  - destruct (IH cs c (a + (x + - p) * c) x k) as (q & Hq & Hv); try lia.
    exists q. split; [exact Hq|].
    rewrite Hv, traded_shift. ring.
Qed.

End LedgerFacts.

Module BookFacts.
Import LedgerFacts.

Lemma map2Q_length (f : Q -> Q -> Q) (ps cs : list Q) :
  length cs = length ps -> length (map2Q f ps cs) = length ps.
Proof.
  revert cs; induction ps as [|p ps IH]; intros [|c cs] H; simpl in *;
    try lia. now rewrite IH by lia.
Qed.

Lemma binop_mul_Fin (ps cs : list Q) :
  length cs = length ps ->
  binop F.mul (map Fin ps) (map Fin cs) = map Fin (map2Q Qmult ps cs).
Proof.
  revert cs; induction ps as [|p ps IH]; intros [|c cs] H; simpl in H;
    try lia; [reflexivity|].
  cbn [map binop map2Q]. rewrite IH by lia. reflexivity.
Qed.

Lemma at_map_Fin (f : Q -> Q) (l : list Q) (t : nat) :
  (t < length l)%nat -> at_ (map (fun q => Fin (f q)) l) t = Fin (f (nth t l 0)).
Proof.
  unfold at_. revert t; induction l as [|x l IH]; intros [|t] H; simpl in *;
    try lia; auto. apply IH. lia.
Qed.

Lemma map2Q_nth (f : Q -> Q -> Q) (ps cs : list Q) (t : nat) :
  length cs = length ps -> (t < length ps)%nat ->
  nth t (map2Q f ps cs) 0 = f (nth t ps 0) (nth t cs 0).
Proof.
  revert cs t; induction ps as [|p ps IH]; intros [|c cs] [|t] H Ht;
    simpl in *; try lia; auto. apply IH; lia.
Qed.

End BookFacts.

Module CloseFacts.
Import MarketOnClosePortfolio LedgerFacts BookFacts.

Section Book.
Variables (self : t) (pos price : list Q) (cap : Q).
Hypothesis Hbook : close_book self pos price cap.

Lemma close_holdings_eq :
  holdings (backtest_portfolio self) = map Fin (map2Q Qmult pos price).
Proof.
  destruct Hbook as (Hp & Hc & _ & Hn & Hl).
  unfold backtest_portfolio. cbn [holdings].
  rewrite Hp, Hc, Hn, binop_mul_Fin by exact Hl.
  apply reindex_same. now rewrite length_map, map2Q_length.
Qed.

Lemma close_cash_eq :
  cash (backtest_portfolio self)
  = map (fun x => (Fin cap - x)%float)
        (cumsum (binop F.mul (diff (map Fin pos)) (map Fin price))).
Proof.
  destruct Hbook as (Hp & Hc & Hi & Hn & Hl).
  unfold backtest_portfolio, pos_diff. cbn [cash].
  rewrite Hp, Hc, Hi, Hn. apply reindex_same.
  unfold cumsum.
  rewrite length_map, cumsum_from_length, binop_length, diff_length,
    !length_map. lia.
Qed.

Lemma close_cash_length : length (cash (backtest_portfolio self)) = length pos.
Proof.
  destruct Hbook as (_ & _ & _ & Hn & _).
  unfold backtest_portfolio. cbn [cash]. now rewrite reindex_length.
Qed.

Lemma close_holdings_length :
  length (holdings (backtest_portfolio self)) = length pos.
Proof.
  destruct Hbook as (_ & _ & _ & Hn & _).
  unfold backtest_portfolio. cbn [holdings]. now rewrite reindex_length.
Qed.

Lemma close_total_at (t : nat) :
  (t < length pos)%nat ->
  at_ (total (backtest_portfolio self)) t
  = (at_ (cash (backtest_portfolio self)) t
     + at_ (holdings (backtest_portfolio self)) t)%float.
Proof.
  intros Ht.
  change (total (backtest_portfolio self))
    with (binop F.add (cash (backtest_portfolio self))
                (holdings (backtest_portfolio self))).
  apply binop_nth; [rewrite close_cash_length | rewrite close_holdings_length]; exact Ht.
Qed.

Lemma close_holdings_at (t : nat) :
  (t < length pos)%nat ->
  at_ (holdings (backtest_portfolio self)) t
  = Fin (nth t pos 0 * nth t price 0).
Proof.
  intros Ht. destruct Hbook as (_ & _ & _ & _ & Hl).
  rewrite close_holdings_eq.
  rewrite (at_map_Fin (fun q => q)) by now rewrite map2Q_length.
  now rewrite map2Q_nth.
Qed.

Lemma close_cash_at (t : nat) :
  (1 <= t < length pos)%nat ->
  exists q, at_ (cash (backtest_portfolio self)) t = Fin q /\
       q == cap - traded pos price t.
Proof.
  intros Ht. destruct Hbook as (_ & _ & _ & _ & Hl).
  rewrite close_cash_eq. destruct t as [|k]; [lia|].
  destruct pos as [|p ps]; [simpl in Ht; lia|].
  destruct price as [|c cs]; [simpl in Hl; lia|].
  simpl in Hl, Ht.
  destruct (close_ledger ps cs c 0 p k) as (q & Hq & Hv); try lia.
  exists (cap + - q). split.
  - unfold at_.
    change (nth (S k)
              (map (fun x => (Fin cap - x)%float)
                 (cumsum (binop F.mul (diff (map Fin (p :: ps)))
                                (map Fin (c :: cs))))) NaN)
      with (nth k
              (map (fun x => (Fin cap - x)%float)
                 (cumsum_from (Fin 0)
                    (binop F.mul (diff_from (Fin p) (map Fin ps))
                           (map Fin cs))))
              ((fun x => (Fin cap - x)%float) NaN)).
    rewrite map_nth, Hq. reflexivity.
  - rewrite Hv. ring.
Qed.

Lemma close_cash_head (p : Q) (ps : list Q) :
  pos = p :: ps -> at_ (cash (backtest_portfolio self)) 0 = NaN.
Proof.
  intros E. destruct Hbook as (_ & _ & _ & _ & Hl).
  rewrite close_cash_eq. subst pos.
  destruct price as [|c cs]; [simpl in Hl; lia|]. reflexivity.
Qed.

End Book.

End CloseFacts.

Module OpenFacts.
Import MarketOnOpenPortfolio LedgerFacts BookFacts.

Lemma frame_mul_length (df : DataFrame) (s : Series) :
  length (frame_mul df s) = length df.
Proof. unfold frame_mul. apply length_map. Qed.

Lemma frame_diff_from_length (r : list float) (df : DataFrame) :
  length (frame_diff_from r df) = length df.
Proof. revert r; induction df; intros; simpl; auto. Qed.

Lemma frame_diff_length (df : DataFrame) :
  length (frame_diff df) = length df.
Proof. destruct df; simpl; auto using frame_diff_from_length. Qed.

Lemma dropna_all_nan (A : Type) (l : list A) :
  filter (fun x => negb (F.is_nan x)) (map (fun _ => NaN) l) = [].
Proof. induction l; simpl; auto. Qed.

(** A row of the product holds nothing to add up. *)
Lemma nansum_all_nan (r : list float) (s : Series) :
  nansum (map (fun _ => NaN) r ++ map (fun _ => NaN) s) = F.zero.
Proof. unfold nansum. now rewrite filter_app, !dropna_all_nan. Qed.

Lemma sum_axis1_frame_mul (df : DataFrame) (s : Series) :
  sum_axis1 (frame_mul df s) = repeat F.zero (length df).
Proof.
  unfold sum_axis1, frame_mul. rewrite map_map.
  induction df as [|r df IH]; [reflexivity|].
  cbn [map length repeat]. now rewrite nansum_all_nan, IH.
Qed.

Lemma cumsum_from_zeros (n : nat) :
  forall (a : Q) (t : nat), (t < n)%nat ->
    exists q, nth t (cumsum_from (Fin a) (repeat F.zero n)) NaN = Fin q /\
         q == a.
Proof.
  induction n as [|n IH]; intros a t Ht; [lia|].
  change (cumsum_from (Fin a) (repeat F.zero (S n)))
    with (Fin (a + 0) :: cumsum_from (Fin (a + 0)) (repeat F.zero n)).
  destruct t as [|t].
  - exists (a + 0). split; [reflexivity | ring].
  - destruct (IH (a + 0) t) as (q & Hq & Hv); [lia|].
    exists q. split; [exact Hq | rewrite Hv; ring].
Qed.

Lemma cumsum_zeros_at (n t : nat) :
  (t < n)%nat ->
  exists q, at_ (cumsum (repeat F.zero n)) t = Fin q /\ q == 0.
Proof. intros Ht. exact (cumsum_from_zeros n 0 t Ht). Qed.

Section Book.
Variables (self : t) (cap : Q).
Hypothesis Hcap : initial_capital self = Fin cap.

Lemma open_value_length :
  length (value (backtest_portfolio self)) = length (positions self).
Proof. unfold backtest_portfolio. cbn [value]. apply frame_mul_length. Qed.

Lemma open_holdings_eq :
  holdings (backtest_portfolio self)
  = repeat F.zero (length (positions self)).
Proof.
  unfold backtest_portfolio. cbn [holdings].
  rewrite frame_mul_length, sum_axis1_frame_mul.
  apply reindex_same. apply repeat_length.
Qed.

Lemma open_cash_eq :
  cash (backtest_portfolio self)
  = map (fun x => (Fin cap - x)%float)
        (cumsum (repeat F.zero (length (positions self)))).
Proof.
  unfold backtest_portfolio, pos_diff. cbn [cash].
  rewrite Hcap, frame_mul_length, sum_axis1_frame_mul, frame_diff_length.
  apply reindex_same. unfold cumsum.
  now rewrite length_map, cumsum_from_length, repeat_length.
Qed.

Lemma open_cash_length :
  length (cash (backtest_portfolio self)) = length (positions self).
Proof.
  unfold backtest_portfolio. cbn [cash].
  now rewrite reindex_length, frame_mul_length.
Qed.

Lemma open_holdings_length :
  length (holdings (backtest_portfolio self)) = length (positions self).
Proof. rewrite open_holdings_eq. apply repeat_length. Qed.

Lemma open_total_at (t : nat) :
  (t < length (positions self))%nat ->
  at_ (total (backtest_portfolio self)) t
  = (at_ (cash (backtest_portfolio self)) t
     + at_ (holdings (backtest_portfolio self)) t)%float.
Proof.
  intros Ht.
  change (total (backtest_portfolio self))
    with (binop F.add (cash (backtest_portfolio self))
                (holdings (backtest_portfolio self))).
  apply binop_nth;
    [rewrite open_cash_length | rewrite open_holdings_length]; exact Ht.
Qed.

Lemma open_holdings_at (t : nat) :
  (t < length (positions self))%nat ->
  at_ (holdings (backtest_portfolio self)) t = F.zero.
Proof. intros Ht. rewrite open_holdings_eq. now apply at_repeat. Qed.

Lemma open_cash_at (t : nat) :
  (t < length (positions self))%nat ->
  exists q, at_ (cash (backtest_portfolio self)) t = Fin q /\ q == cap.
Proof.
  intros Ht. rewrite open_cash_eq.
  destruct (cumsum_zeros_at _ t Ht) as (q & Hq & Hv).
  rewrite at_map
    by (unfold cumsum; now rewrite cumsum_from_length, repeat_length).
  rewrite Hq. eexists. split; [reflexivity|]. rewrite Hv. ring.
Qed.

End Book.

Lemma open_book_rows (self : t) (pos price : list Q) (cap : Q) :
  open_book self pos price cap -> length (positions self) = length pos.
Proof.
  intros (Hp & _). rewrite Hp. unfold frame_of_column.
  now rewrite !length_map.
Qed.

Lemma open_book_capital (self : t) (pos price : list Q) (cap : Q) :
  open_book self pos price cap -> initial_capital self = Fin cap.
Proof. now intros (_ & _ & Hi & _). Qed.

End OpenFacts.

Lemma two_bars_close_book : close_book two_bars_close [0; 100] [10; 11] 1000.
Proof. repeat split. Qed.

Lemma two_bars_open_book : open_book two_bars_open [0; 100] [10; 11] 1000.
Proof. repeat split. Qed.

(** C1, as stated, fails on the first bar of the close-fill accountant:
    [cash[0]] and [total[0]] are NaN, and NaN equals nothing. *)
Lemma total_first_bar_not_equal :
  MarketOnClosePortfolio.init one_bar [Fin 1] (Fin 100000)
  = Returns one_bar_close /\
  let p := MarketOnClosePortfolio.backtest_portfolio one_bar_close in
  MarketOnClosePortfolio.holdings p = [Fin 1000] /\
  MarketOnClosePortfolio.cash p = [NaN] /\
  MarketOnClosePortfolio.total p = [NaN] /\
  (at_ (MarketOnClosePortfolio.total p) 0
   == at_ (MarketOnClosePortfolio.cash p) 0
      + at_ (MarketOnClosePortfolio.holdings p) 0)%float = false.
Proof. vm_compute. repeat split. Qed.

(** C1, amended.  For aligned numeric position and price series and every
    initial capital, the close-fill accountant satisfies
    [total[t] == cash[t] + holdings[t]] on every bar [t >= 1] and not on
    bar 0, and the open-fill accountant satisfies it on every bar, bar 0
    included. *)
Theorem total_is_cash_plus_holdings
        (c : MarketOnClosePortfolio.t) (o : MarketOnOpenPortfolio.t)
        (pos price : list Q) (cap : Q) (t : nat) :
  close_book c pos price cap -> open_book o pos price cap ->
  (t < length pos)%nat ->
  ((1 <= t)%nat ->
   (at_ (MarketOnClosePortfolio.total (MarketOnClosePortfolio.backtest_portfolio c)) t
    == at_ (MarketOnClosePortfolio.cash (MarketOnClosePortfolio.backtest_portfolio c)) t
       + at_ (MarketOnClosePortfolio.holdings (MarketOnClosePortfolio.backtest_portfolio c)) t)%float
   = true) /\
  (at_ (MarketOnClosePortfolio.total (MarketOnClosePortfolio.backtest_portfolio c)) 0
   == at_ (MarketOnClosePortfolio.cash (MarketOnClosePortfolio.backtest_portfolio c)) 0
      + at_ (MarketOnClosePortfolio.holdings (MarketOnClosePortfolio.backtest_portfolio c)) 0)%float
  = false /\
  (at_ (MarketOnOpenPortfolio.total (MarketOnOpenPortfolio.backtest_portfolio o)) t
   == at_ (MarketOnOpenPortfolio.cash (MarketOnOpenPortfolio.backtest_portfolio o)) t
      + at_ (MarketOnOpenPortfolio.holdings (MarketOnOpenPortfolio.backtest_portfolio o)) t)%float
  = true.
Proof.
  intros Hc Ho Ht. split; [|split].
  - intros H1.
    rewrite (CloseFacts.close_total_at c pos price cap Hc) by lia.
    destruct (CloseFacts.close_cash_at c pos price cap Hc t (conj H1 Ht))
      as (q & -> & _).
    rewrite (CloseFacts.close_holdings_at c pos price cap Hc) by lia.
    apply eqb_refl_finite.
  - rewrite (CloseFacts.close_total_at c pos price cap Hc) by lia.
    destruct pos as [|p0 ps] eqn:E; [simpl in Ht; lia|]. rewrite <- E in *.
    rewrite (CloseFacts.close_cash_head c pos price cap Hc p0 ps E).
    apply eqb_nan_l.
  - pose proof (OpenFacts.open_book_rows o pos price cap Ho) as Hn.
    pose proof (OpenFacts.open_book_capital o pos price cap Ho) as Hi.
    rewrite (OpenFacts.open_total_at o t) by lia.
    destruct (OpenFacts.open_cash_at o cap Hi t) as (q & -> & _); [lia|].
    rewrite (OpenFacts.open_holdings_at o t) by lia.
    apply eqb_refl_finite.
Qed.

Lemma total_is_cash_plus_holdings_witness :
  (at_ (MarketOnClosePortfolio.total
          (MarketOnClosePortfolio.backtest_portfolio two_bars_close)) 1
   == at_ (MarketOnClosePortfolio.cash
             (MarketOnClosePortfolio.backtest_portfolio two_bars_close)) 1
      + at_ (MarketOnClosePortfolio.holdings
               (MarketOnClosePortfolio.backtest_portfolio two_bars_close)) 1)%float
  = true /\
  (at_ (MarketOnClosePortfolio.total
          (MarketOnClosePortfolio.backtest_portfolio two_bars_close)) 0
   == at_ (MarketOnClosePortfolio.cash
             (MarketOnClosePortfolio.backtest_portfolio two_bars_close)) 0
      + at_ (MarketOnClosePortfolio.holdings
               (MarketOnClosePortfolio.backtest_portfolio two_bars_close)) 0)%float
  = false /\
  (at_ (MarketOnOpenPortfolio.total
          (MarketOnOpenPortfolio.backtest_portfolio two_bars_open)) 1
   == at_ (MarketOnOpenPortfolio.cash
             (MarketOnOpenPortfolio.backtest_portfolio two_bars_open)) 1
      + at_ (MarketOnOpenPortfolio.holdings
               (MarketOnOpenPortfolio.backtest_portfolio two_bars_open)) 1)%float
  = true.
Proof.
  destruct (total_is_cash_plus_holdings two_bars_close two_bars_open
              [0; 100] [10; 11] 1000 1
              two_bars_close_book two_bars_open_book (le_n 2))
    as (H1 & H2 & H3).
  exact (conj (H1 (le_n 1)) (conj H2 H3)).
Defined.

(** C5, as stated, fails: on one bar with a position of 100 units at
    price 10 the position change of bar 0 is NaN, not 100, and the
    close-fill [cash[0]] is NaN, not 100000 - 100 * 10. *)
Lemma first_trade_not_charged :
  MarketOnClosePortfolio.pos_diff one_bar_close = [NaN] /\
  (at_ (MarketOnClosePortfolio.pos_diff one_bar_close) 0
   == at_ (MarketOnClosePortfolio.positions one_bar_close) 0)%float = false /\
  MarketOnClosePortfolio.cash
    (MarketOnClosePortfolio.backtest_portfolio one_bar_close) = [NaN] /\
  (at_ (MarketOnClosePortfolio.cash
          (MarketOnClosePortfolio.backtest_portfolio one_bar_close)) 0
   == Fin 100000 - Fin 100 * Fin 10)%float = false.
Proof. vm_compute. repeat split. Qed.

(** C5, amended.  In both accountants the position change of the first
    bar is NaN, so the first bar's position is never charged to cash:
    the close-fill [cash[0]] is NaN, and on every bar [t >= 1] the
    close-fill [cash[t]] equals the initial capital minus the sum over
    i = 1 .. t of (position[i] - position[i-1]) * price[i]. *)
Theorem cash_ledger_from_second_bar
        (c : MarketOnClosePortfolio.t) (o : MarketOnOpenPortfolio.t)
        (pos price : list Q) (cap : Q) :
  close_book c pos price cap -> open_book o pos price cap ->
  pos <> [] ->
  at_ (MarketOnClosePortfolio.pos_diff c) 0 = NaN /\
  nth 0 (MarketOnOpenPortfolio.pos_diff o) [] = [NaN] /\
  at_ (MarketOnClosePortfolio.cash (MarketOnClosePortfolio.backtest_portfolio c)) 0
  = NaN /\
  forall t, (1 <= t < length pos)%nat ->
       (at_ (MarketOnClosePortfolio.cash
               (MarketOnClosePortfolio.backtest_portfolio c)) t
        == Fin (cap - traded pos price t))%float = true.
Proof.
  intros Hc Ho Hne.
  destruct pos as [|p ps] eqn:Epos; [congruence|]. rewrite <- Epos in *.
  repeat split.
  - destruct Hc as (Hp & _). unfold MarketOnClosePortfolio.pos_diff.
    rewrite Hp, Epos. reflexivity.
  - destruct Ho as (Hp & _). unfold MarketOnOpenPortfolio.pos_diff.
    rewrite Hp, Epos. reflexivity.
  - apply (CloseFacts.close_cash_head c pos price cap Hc p ps Epos).
  - intros t H.
    destruct (CloseFacts.close_cash_at c pos price cap Hc t H) as (q & -> & Hq).
    now apply eqb_Fin.
Qed.

Lemma cash_ledger_from_second_bar_witness :
  at_ (MarketOnClosePortfolio.pos_diff two_bars_close) 0 = NaN /\
  nth 0 (MarketOnOpenPortfolio.pos_diff two_bars_open) [] = [NaN] /\
  at_ (MarketOnClosePortfolio.cash
         (MarketOnClosePortfolio.backtest_portfolio two_bars_close)) 0 = NaN /\
  (at_ (MarketOnClosePortfolio.cash
          (MarketOnClosePortfolio.backtest_portfolio two_bars_close)) 1
   == Fin (1000 - traded [0; 100] [10; 11] 1))%float = true.
Proof.
  destruct (cash_ledger_from_second_bar two_bars_close two_bars_open
              [0; 100] [10; 11] 1000
              two_bars_close_book two_bars_open_book)
    as (H1 & H2 & H3 & H4); [discriminate|].
  exact (conj H1 (conj H2 (conj H3 (H4 1%nat (conj (le_n 1) (le_n 2)))))).
Defined.

(** ** Pairs-trading equity curve *)

Module PairsFacts.
Import MrSpyIwm.

Lemma clean_returns_map (total : Series) :
  clean_returns total = map clean_cell (pct_change total).
Proof.
  unfold clean_returns, replace, fillna. rewrite !map_map. reflexivity.
Qed.

Lemma clean_cell_finite (x : float) :
  F.is_finite (clean_cell x) = true /\
  (clean_cell x == F.neg F.one)%float = false.
Proof.
  destruct x as [| | |q]; try (split; reflexivity).
  change (clean_cell (Fin q))
    with (if Qeq_bool q (- (1)) || false then F.zero else Fin q).
  destruct (Qeq_bool q (- (1))) eqn:E.
  - split; reflexivity.
  - split; [reflexivity | exact E].
Qed.

Lemma pct_change_from_length (p : float) (s : Series) :
  length (pct_change_from p s) = length s.
Proof. revert p; induction s; intros; simpl; auto. Qed.

Lemma pad_from_length (last : float) (s : Series) :
  length (pad_from last s) = length s.
Proof. revert last; induction s; intros; simpl; auto. Qed.

Lemma pad_from_Fin (l : list Q) :
  forall last, pad_from last (map Fin l) = map Fin l.
Proof.
  induction l as [|q l IH]; intros last; [reflexivity|].
  cbn [map pad_from F.is_nan]. now rewrite IH.
Qed.


Lemma pad_head (s : Series) : at_ (pad s) 0 = at_ s 0.
Proof. destruct s as [|[| | |q] s]; reflexivity. Qed.

Lemma pct_change_length (s : Series) : length (pct_change s) = length s.
Proof.
  unfold pct_change. rewrite <- (pad_from_length NaN s). fold (pad s).
  destruct (pad s); simpl; auto using pct_change_from_length.
Qed.

Lemma pct_change_Fin (T0 : Q) (Ts : list Q) :
  pct_change (map Fin (T0 :: Ts))
  = NaN :: pct_change_from (Fin T0) (map Fin Ts).
Proof.
  unfold pct_change, pad. cbn [map pad_from F.is_nan].
  now rewrite pad_from_Fin.
Qed.



End PairsFacts.

Lemma pct_change_from_at (s : Series) :
  forall p k, (k < length s)%nat ->
         at_ (pct_change_from p s) k
         = (at_ s k / match k with O => p | S j => at_ s j end - F.one)%float.
Proof.
  unfold at_. induction s as [|x s IH]; intros p k Hk; simpl in Hk; [lia|].
  destruct k as [|k]; [reflexivity|].
  cbn [pct_change_from nth]. rewrite IH by lia. destruct k; reflexivity.
Qed.

Lemma pct_change_pad_at (s : Series) (k : nat) :
  (S k < length s)%nat ->
  at_ (pct_change s) (S k) = (at_ (pad s) (S k) / at_ (pad s) k - F.one)%float.
Proof.
  intros Hk. rewrite <- (PairsFacts.pad_from_length NaN s) in Hk. fold (pad s) in Hk.
  unfold pct_change. destruct (pad s) as [|x r]; simpl in Hk; [lia|].
  change (at_ (NaN :: pct_change_from x r) (S k))
    with (at_ (pct_change_from x r) k).
  rewrite pct_change_from_at by lia. destruct k; reflexivity.
Qed.


Lemma div_nan_r (x : float) : (x / NaN)%float = NaN.
Proof. destruct x; reflexivity. Qed.






(** ** Sharpe ratio *)

Module SharpeFacts.
Import Performance.

Lemma dropna_Fin (rs : list Q) : dropna (map Fin rs) = map Fin rs.
Proof.
  unfold dropna. induction rs as [|r rs IH]; simpl; auto. now rewrite IH.
Qed.

Lemma fold_add_Fin (rs : list Q) (a : Q) :
  fold_left F.add (map Fin rs) (Fin a) = Fin (fold_left Qplus rs a).
Proof. revert a; induction rs as [|r rs IH]; intros a; simpl; auto. Qed.

Lemma nansum_Fin (rs : list Q) : nansum (map Fin rs) = Fin (Qsum rs).
Proof.
  unfold nansum. change (filter _ (map Fin rs)) with (dropna (map Fin rs)).
  rewrite dropna_Fin. apply fold_add_Fin.
Qed.

Lemma count_positive (rs : list Q) :
  rs <> [] -> 0 < inject_Z (Z.of_nat (length rs)).
Proof.
  destruct rs as [|r rs]; [congruence|]. intros _.
  unfold Qlt. simpl. lia.
Qed.

Lemma div_Fin (a b : Q) : ~ b == 0 -> (Fin a / Fin b)%float = Fin (a / b).
Proof.
  intros Hb. unfold F.div, F.sgn.
  destruct (Qcompare b 0) eqn:E; auto.
  apply Qeq_alt in E. contradiction.
Qed.

Lemma np_mean_Fin (rs : list Q) :
  rs <> [] -> np_mean (map Fin rs) = Fin (mean rs).
Proof.
  intros Hne. unfold np_mean, mean, F.of_nat.
  rewrite nansum_Fin, dropna_Fin, length_map.
  apply div_Fin. pose proof (count_positive rs Hne). lra.
Qed.

Lemma fold_plus_nonneg (l : list Q) :
  Forall (fun x => 0 <= x) l -> forall a, 0 <= a -> 0 <= fold_left Qplus l a.
Proof.
  induction 1 as [|x l Hx _ IH]; intros a Ha; simpl; auto.
  apply IH. lra.
Qed.

Lemma mean_squares_nonneg (m : Q) (rs : list Q) :
  rs <> [] -> 0 <= mean (map (fun r => (m - r) * (m - r)) rs).
Proof.
  intros Hne. unfold mean. rewrite length_map.
  pose proof (count_positive rs Hne) as Hn.
  apply Qle_shift_div_l; [exact Hn|]. rewrite Qmult_0_l.
  apply fold_plus_nonneg; [|lra].
  apply Forall_forall. intros x Hx. apply in_map_iff in Hx.
  destruct Hx as (r & <- & _).
  set (d := m - r). destruct (Qlt_le_dec d 0) as [Hd|Hd].
  - setoid_replace (d * d) with ((- d) * (- d)) by ring.
    apply Qmult_le_0_compat; lra.
  - apply Qmult_le_0_compat; exact Hd.
Qed.

Lemma mean_map (g : Q -> Q) (rs : list Q) :
  mean (map g rs) = Qsum (map g rs) / inject_Z (Z.of_nat (length rs)).
Proof. unfold mean. now rewrite length_map. Qed.

Lemma np_std_Fin (sqrtQ : Q -> Q) (rs : list Q) :
  rs <> [] -> np_std sqrtQ (map Fin rs) = Fin (stdev sqrtQ rs).
Proof.
  intros Hne. unfold np_std. rewrite np_mean_Fin by exact Hne.
  rewrite dropna_Fin, map_map.
  change (map (fun x => ((Fin (mean rs) - Fin x) * (Fin (mean rs) - Fin x))%float) rs)
    with (map (fun x => Fin ((fun r => (mean rs - r) * (mean rs - r)) x)) rs).
  rewrite <- (map_map (fun r => (mean rs - r) * (mean rs - r)) Fin).
  rewrite nansum_Fin, length_map. unfold F.of_nat.
  rewrite div_Fin by (pose proof (count_positive rs Hne); lra).
  pose proof (mean_squares_nonneg (mean rs) rs Hne) as Hv.
  unfold mean at 1 in Hv. rewrite length_map in Hv.
  unfold np_sqrt. apply Qle_bool_iff in Hv. rewrite Hv.
  unfold stdev. rewrite mean_map. reflexivity.
Qed.

Lemma isqrtQ_positive (q : Q) : 0 < q -> ~ isqrtQ q == 0.
Proof.
  intros Hq. rewrite <- (Qred_correct q) in Hq.
  unfold isqrtQ. destruct (Qred q) as [n d]. unfold Qlt in Hq.
  simpl in Hq. unfold Qeq. simpl.
  assert (0 < Z.sqrt n)%Z by (apply Z.sqrt_pos; lia). lia.
Qed.

End SharpeFacts.

(** C7.  On a non-empty series of numbers with non-zero standard
    deviation (and a non-negative [periods]) the function returns
    sqrt(periods) * mean(returns) / stdev(returns), the deviation being
    the population one (ddof = 0); on the returns
    [0.01, -0.01, 0.01, -0.01] with periods = 252 the result is 0,
    whatever the rounding of the root as long as the root of a positive
    number is not 0. *)
Theorem sharpe_ratio_formula (sqrtQ : Q -> Q) :
  (forall (rs : list Q) (p : Q),
      rs <> [] -> 0 <= p -> ~ Performance.stdev sqrtQ rs == 0 ->
      Performance.create_sharpe_ratio sqrtQ (map Fin rs) (Fin p)
      = Fin (sqrtQ p * Performance.mean rs / Performance.stdev sqrtQ rs)) /\
  ((forall q, 0 < q -> ~ sqrtQ q == 0) ->
   (Performance.create_sharpe_ratio sqrtQ (map Fin scenario4) (Fin 252)
    == F.zero)%float = true).
Proof.
  assert (Hgen : forall (rs : list Q) (p : Q),
             rs <> [] -> 0 <= p -> ~ Performance.stdev sqrtQ rs == 0 ->
             Performance.create_sharpe_ratio sqrtQ (map Fin rs) (Fin p)
             = Fin (sqrtQ p * Performance.mean rs
                    / Performance.stdev sqrtQ rs)).
  { intros rs p Hne Hp Hsd. unfold Performance.create_sharpe_ratio.
    rewrite SharpeFacts.np_mean_Fin, SharpeFacts.np_std_Fin by exact Hne.
    unfold Performance.np_sqrt. apply Qle_bool_iff in Hp. rewrite Hp.
    cbn [F.mul]. now apply SharpeFacts.div_Fin. }
  split; [exact Hgen|].
  intros Hpos. rewrite Hgen.
  - apply eqb_Fin.
    assert (Hm : Performance.mean scenario4 == 0) by reflexivity.
    rewrite Hm. unfold Qdiv. ring.
  - discriminate.
  - discriminate.
  - unfold Performance.stdev. apply Hpos. reflexivity.
Qed.

Lemma sharpe_ratio_formula_witness :
  Performance.create_sharpe_ratio isqrtQ [Fin 1; Fin 3] (Fin 4)
  = Fin (isqrtQ 4 * Performance.mean [1; 3] / Performance.stdev isqrtQ [1; 3])
  /\
  (Performance.create_sharpe_ratio isqrtQ (map Fin scenario4) (Fin 252)
   == F.zero)%float = true.
Proof.
  destruct (sharpe_ratio_formula isqrtQ) as [Hgen Hsc]. split.
  - apply (Hgen [1; 3] 4).
    + discriminate.
    + discriminate.
    + intro H. vm_compute in H. discriminate H.
  - apply Hsc. exact SharpeFacts.isqrtQ_positive.
Defined.

(** ** The drawdown loop and its recurrence *)

Module ScanFacts.
Import Performance.

Lemma dd_scan_length (prev : float * float) (rest : Series) :
  length (dd_scan prev rest) = length rest.
Proof. revert prev; induction rest; intros; simpl; auto. Qed.

Lemma dd_scan_nth (rest : Series) :
  forall (prev : float * float) (k : nat),
    (k < length rest)%nat ->
    nth k (dd_scan prev rest) nan3
    = scan_step
        match k with
        | O => prev
        | S j => (hw (nth j (dd_scan prev rest) nan3),
                  du (nth j (dd_scan prev rest) nan3))
        end
        (nth k rest NaN).
Proof.
  induction rest as [|e r IH]; intros prev k Hk; simpl in Hk; [lia|].
  destruct k as [|j]; [reflexivity|].
  cbn [dd_scan nth]. rewrite IH by lia.
  destruct j; reflexivity.
Qed.

Lemma set_at_cons (a v : float) (l : Series) (n : nat) :
  set_at (S n) v (a :: l) = a :: set_at n v l.
Proof.
  unfold set_at. cbn [length].
  change (S n <? S (length l))%nat with (n <? length l)%nat.
  destruct (n <? length l)%nat; reflexivity.
Qed.

Lemma set_at_middle (l1 l2 : Series) (x v : float) :
  set_at (length l1) v (l1 ++ x :: l2) = l1 ++ v :: l2.
Proof.
  induction l1 as [|a l1 IH]; [reflexivity|].
  cbn [length app]. now rewrite set_at_cons, IH.
Qed.

Lemma firstn_snoc {A : Type} (l : list A) (k : nat) (d : A) :
  (k < length l)%nat -> firstn (S k) l = firstn k l ++ [nth k l d].
Proof.
  revert k; induction l as [|x l IH]; intros [|k] H; simpl in *; try lia; auto.
  f_equal. apply IH. lia.
Qed.

End ScanFacts.
Module LoopFacts.
Import Performance ScanFacts.

Lemma nth_map_firstn {B : Type} (f : float * float * float -> B)
      (sc : list (float * float * float)) (tl : list B) (d : B) :
  forall j k, (j < k)%nat -> (k <= length sc)%nat ->
         nth j (map f (firstn k sc) ++ tl) d = f (nth j sc nan3).
Proof.
  induction sc as [|x sc IH]; intros j k Hj Hk; simpl in Hk; [lia|].
  destruct k as [|k]; [lia|]. destruct j as [|j]; [reflexivity|].
  cbn [firstn map app nth]. apply IH; lia.
Qed.

Lemma nth_map_firstn_end {B : Type} (f : float * float * float -> B)
      (sc : list (float * float * float)) (tl : list B) (d : B) (k : nat) :
  (k <= length sc)%nat -> nth k (map f (firstn k sc) ++ tl) d = nth 0 tl d.
Proof.
  intros Hk. rewrite app_nth2; rewrite length_map, length_firstn,
    Nat.min_l by exact Hk; [now rewrite Nat.sub_diag | lia].
Qed.

Lemma set_at_after (l1 l2 : Series) (x v : float) (k : nat) :
  length l1 = k -> set_at k v (l1 ++ x :: l2) = l1 ++ v :: l2.
Proof. intros <-. apply set_at_middle. Qed.

Lemma dd_step_state (e : float) (rest : Series) (k : nat) :
  (k < length rest)%nat ->
  dd_step (e :: rest) (dd_state_at rest k) (S k) = dd_state_at rest (S k).
Proof.
  intros Hk. set (sc := dd_scan (F.zero, NaN) rest).
  assert (Hsc : length sc = length rest) by apply dd_scan_length.
  assert (Hx : nth k sc nan3 = scan_step (prev_at rest k) (nth k rest NaN))
    by (apply dd_scan_nth; exact Hk).
  assert (Hh : nth (S k - 1) (hwm (dd_state_at rest k)) NaN
               = fst (prev_at rest k)).
  { cbn [Nat.sub]. rewrite Nat.sub_0_r. unfold dd_state_at. cbn [hwm].
    fold sc. destruct k as [|j]; [reflexivity|].
    cbn [nth]. rewrite <- (app_nil_r (map hw _)).
    rewrite nth_map_firstn by lia. reflexivity. }
  assert (Hd : at_ (duration (dd_state_at rest k)) (S k - 1)
               = snd (prev_at rest k)).
  { cbn [Nat.sub]. rewrite Nat.sub_0_r. unfold dd_state_at, at_.
    cbn [duration]. fold sc. destruct k as [|j]; [reflexivity|].
    cbn [nth]. rewrite nth_map_firstn by lia. reflexivity. }
  assert (Hrep : (length rest - k = S (length rest - S k))%nat) by lia.
  unfold dd_step. rewrite Hh, Hd.
  change (at_ (e :: rest) (S k)) with (nth k rest NaN).
  set (h := py_max (fst (prev_at rest k)) (nth k rest NaN)).
  assert (Hhw : hwm (dd_state_at rest k) ++ [h]
                = F.zero :: map hw (firstn (S k) sc)).
  { unfold dd_state_at. cbn [hwm]. fold sc.
    rewrite (firstn_snoc sc k nan3) by lia. rewrite map_app, Hx.
    reflexivity. }
  assert (Hn : nth (S k) (hwm (dd_state_at rest k) ++ [h]) NaN = h).
  { unfold dd_state_at. cbn [hwm]. fold sc. cbn [app nth].
    now rewrite nth_map_firstn_end by lia. }
  rewrite Hn.
  assert (Hdd : set_at (S k) (h - nth k rest NaN)%float
                       (drawdown (dd_state_at rest k))
                = NaN :: map dd (firstn (S k) sc)
                      ++ repeat NaN (length rest - S k)).
  { unfold dd_state_at. cbn [drawdown]. fold sc. rewrite Hrep.
    cbn [repeat]. rewrite set_at_cons.
    rewrite set_at_after by (rewrite length_map, length_firstn; lia).
    rewrite (firstn_snoc sc k nan3) by lia.
    rewrite map_app, <- app_assoc, Hx. reflexivity. }
  rewrite Hdd.
  assert (Hat : at_ (NaN :: map dd (firstn (S k) sc)
                         ++ repeat NaN (length rest - S k)) (S k)
                = (h - nth k rest NaN)%float).
  { unfold at_. cbn [nth].
    rewrite (firstn_snoc sc k nan3) by lia.
    rewrite map_app, <- app_assoc, nth_map_firstn_end by lia.
    rewrite Hx. reflexivity. }
  rewrite Hat.
  unfold dd_state_at at 2. fold sc. rewrite Hhw. f_equal.
  unfold dd_state_at. cbn [duration]. fold sc. rewrite Hrep.
  cbn [repeat]. rewrite set_at_cons.
  rewrite set_at_after by (rewrite length_map, length_firstn; lia).
  rewrite (firstn_snoc sc k nan3) by lia.
  rewrite !map_app, <- !app_assoc, Hx. reflexivity.
Qed.

End LoopFacts.

Lemma dd_fold_state (e : float) (rest : Series) (k : nat) :
  (k <= length rest)%nat ->
  fold_left (Performance.dd_step (e :: rest)) (seq 1 k)
            (Performance.dd_init (e :: rest))
  = dd_state_at rest k.
Proof.
  induction k as [|k IH]; intros Hk.
  - unfold dd_state_at, Performance.dd_init. cbn [seq fold_left firstn map app].
    rewrite Nat.sub_0_r. reflexivity.
  - rewrite seq_S, fold_left_app, IH by lia. cbn [fold_left Nat.add].
    apply LoopFacts.dd_step_state. lia.
Qed.

Lemma dd_loop_state (e : float) (rest : Series) :
  Performance.dd_loop (e :: rest) = dd_state_at rest (length rest).
Proof.
  unfold Performance.dd_loop. cbn [length Nat.sub]. rewrite Nat.sub_0_r.
  apply dd_fold_state. lia.
Qed.

(** X1.  The scan never reads the first bar: two curves that differ only
    in their first value give the same high-water marks, drawdowns,
    durations and result. *)
Theorem create_drawdowns_ignores_first_bar (e e' : float) (rest : Series) :
  Performance.dd_loop (e :: rest) = Performance.dd_loop (e' :: rest) /\
  Performance.create_drawdowns (e :: rest)
  = Performance.create_drawdowns (e' :: rest).
Proof.
  unfold Performance.create_drawdowns. rewrite !dd_loop_state. split; reflexivity.
Qed.

(** X2.  A curve with no bar or a single bar gives NaN for both the
    maximum drawdown and the maximum duration. *)
Theorem create_drawdowns_short_curve (equity_curve : Series) :
  (length equity_curve <= 1)%nat ->
  Performance.create_drawdowns equity_curve = (NaN, NaN).
Proof.
  destruct equity_curve as [|e [|e2 rest]]; simpl; intros H;
    [reflexivity | reflexivity | lia].
Qed.

Lemma create_drawdowns_short_curve_witness :
  Performance.create_drawdowns [Fin 100] = (NaN, NaN).
Proof. apply create_drawdowns_short_curve. apply le_n. Defined.

Module NumericScan.
Import Performance ScanFacts.

Lemma py_max_Fin (a b : Q) : py_max (Fin a) (Fin b) = Fin (qmax a b).
Proof. unfold py_max, qmax. simpl. destruct (Qle_bool b a); reflexivity. Qed.

Lemma qmax_ge_l (m q : Q) : m <= qmax m q.
Proof.
  unfold qmax. destruct (Qle_bool q m) eqn:E; [lra|].
  destruct (Qlt_le_dec m q) as [H|H]; [lra|].
  apply Qle_bool_iff in H. congruence.
Qed.

Lemma qmax_ge_r (m q : Q) : q <= qmax m q.
Proof.
  unfold qmax. destruct (Qle_bool q m) eqn:E; [|lra].
  now apply Qle_bool_iff.
Qed.

Lemma leb_Fin (a b : Q) : a <= b -> (Fin a <=? Fin b)%float = true.
Proof.
  intros H. unfold F.leb. simpl.
  destruct (Qle_bool b a) eqn:E; [|reflexivity].
  apply Qle_bool_iff in E. simpl. apply Qeq_bool_iff. lra.
Qed.

Lemma nth_map_Fin (qs : list Q) (k : nat) :
  (k < length qs)%nat -> nth k (map Fin qs) NaN = Fin (nth k qs 0).
Proof.
  revert k; induction qs as [|q qs IH]; intros [|k] H; simpl in *; try lia;
    auto. apply IH. lia.
Qed.

Lemma run_max_length (m : Q) (qs : list Q) :
  length (run_max m qs) = length qs.
Proof. revert m; induction qs; intros; simpl; auto. Qed.

Lemma hw_scan_Fin (qs : list Q) :
  forall (m : Q) (u : float) (k : nat),
    (k < length qs)%nat ->
    hw (nth k (dd_scan (Fin m, u) (map Fin qs)) nan3)
    = Fin (nth k (run_max m qs) 0).
Proof.
  induction qs as [|q qs IH]; intros m u k Hk; simpl in Hk; [lia|].
  cbn [map dd_scan run_max]. unfold scan_step at 1 2. cbn [fst hw].
  rewrite py_max_Fin. destruct k as [|k]; [reflexivity|].
  cbn [nth]. apply IH. lia.
Qed.

(** The mark that iteration [S k] starts from, as a number. *)
Lemma prev_hw_Fin (qs : list Q) (k : nat) :
  (k < length qs)%nat ->
  fst (prev_at (map Fin qs) k)
  = Fin match k with O => 0 | S j => nth j (run_max 0 qs) 0 end.
Proof.
  intros Hk. destruct k as [|j]; [reflexivity|].
  cbn [prev_at fst]. apply hw_scan_Fin. lia.
Qed.

Lemma scan_at (e : float) (rest : Series) (k : nat) :
  (k < length rest)%nat ->
  let st := dd_loop (e :: rest) in
  nth k (hwm st) NaN = fst (prev_at rest k) /\
  nth (S k) (hwm st) NaN = hw (nth k (dd_scan (F.zero, NaN) rest) nan3) /\
  at_ (drawdown st) (S k) = dd (nth k (dd_scan (F.zero, NaN) rest) nan3) /\
  at_ (duration st) (S k) = du (nth k (dd_scan (F.zero, NaN) rest) nan3).
Proof.
  intros Hk st. subst st. rewrite dd_loop_state. unfold dd_state_at, at_.
  cbn [hwm drawdown duration].
  rewrite firstn_all2 by (rewrite dd_scan_length; lia).
  assert (Hl : (k < length (dd_scan (F.zero, NaN) rest))%nat)
    by (rewrite dd_scan_length; exact Hk).
  repeat split.
  - destruct k as [|j]; [reflexivity|]. cbn [nth prev_at fst].
    exact (map_nth hw _ nan3 _).
  - cbn [nth]. exact (map_nth hw _ nan3 _).
  - cbn [nth]. rewrite app_nth1 by (now rewrite length_map).
    exact (map_nth dd _ nan3 _).
  - cbn [nth]. rewrite app_nth1 by (now rewrite length_map).
    exact (map_nth du _ nan3 _).
Qed.

End NumericScan.

(** X3.  On a curve of numbers, from the second bar on the scan keeps
    its recurrence: [hwm[t] = max(hwm[t-1], equity[t])], the mark never
    decreases, it is at least the equity of the bar, and
    [drawdown[t] = hwm[t] - equity[t]] is not negative. *)
Theorem hwm_after_first_bar (e : float) (qs : list Q) (k : nat) :
  (k < length qs)%nat ->
  let st := Performance.dd_loop (e :: map Fin qs) in
  let t := S k in
  nth t (Performance.hwm st) NaN
  = py_max (nth k (Performance.hwm st) NaN) (Fin (nth k qs 0)) /\
  (nth k (Performance.hwm st) NaN <=? nth t (Performance.hwm st) NaN)%float
  = true /\
  (Fin (nth k qs 0) <=? nth t (Performance.hwm st) NaN)%float = true /\
  at_ (Performance.drawdown st) t
  = (nth t (Performance.hwm st) NaN - Fin (nth k qs 0))%float /\
  (F.zero <=? at_ (Performance.drawdown st) t)%float = true.
Proof.
  intros Hk st t. subst st t.
  assert (Hk' : (k < length (map Fin qs))%nat) by now rewrite length_map.
  destruct (NumericScan.scan_at e (map Fin qs) k Hk') as (H0 & H1 & H2 & _).
  rewrite H0, H1, H2.
  rewrite (ScanFacts.dd_scan_nth (map Fin qs) (F.zero, NaN) k Hk').
  fold (prev_at (map Fin qs) k).
  rewrite NumericScan.nth_map_Fin by exact Hk.
  unfold scan_step. cbn [hw dd fst snd].
  rewrite NumericScan.prev_hw_Fin by exact Hk.
  set (prev := match k with O => 0 | S j => nth j (run_max 0 qs) 0 end).
  rewrite NumericScan.py_max_Fin.
  pose proof (NumericScan.qmax_ge_l prev (nth k qs 0)).
  pose proof (NumericScan.qmax_ge_r prev (nth k qs 0)).
  repeat split; try (apply NumericScan.leb_Fin; lra).
Qed.

Lemma hwm_after_first_bar_witness :
  let st := Performance.dd_loop (Fin 100 :: map Fin [90; 95]) in
  nth 2 (Performance.hwm st) NaN
  = py_max (nth 1 (Performance.hwm st) NaN) (Fin 95) /\
  (nth 1 (Performance.hwm st) NaN <=? nth 2 (Performance.hwm st) NaN)%float
  = true /\
  (Fin 95 <=? nth 2 (Performance.hwm st) NaN)%float = true /\
  at_ (Performance.drawdown st) 2
  = (nth 2 (Performance.hwm st) NaN - Fin 95)%float /\
  (F.zero <=? at_ (Performance.drawdown st) 2)%float = true.
Proof. exact (hwm_after_first_bar (Fin 100) [90; 95] 1 (le_n 2)). Defined.

Module MaxFacts.
Import Performance ScanFacts NumericScan.

Lemma dd_scan_dd (qs : list Q) :
  forall (m : Q) (u : float),
    map dd (dd_scan (Fin m, u) (map Fin qs)) = map Fin (run_dd m qs).
Proof.
  induction qs as [|q qs IH]; intros m u; [reflexivity|].
  cbn [map dd_scan run_dd]. unfold scan_step at 1 2. cbn [fst hw dd].
  rewrite py_max_Fin, IH. reflexivity.
Qed.

Lemma run_dd_length (m : Q) (qs : list Q) : length (run_dd m qs) = length qs.
Proof. revert m; induction qs; intros; simpl; auto. Qed.

Lemma run_dd_nonneg (qs : list Q) :
  forall m, Forall (fun d => 0 <= d) (run_dd m qs).
Proof.
  induction qs as [|q qs IH]; intros m; simpl; constructor; auto.
  pose proof (qmax_ge_r m q). lra.
Qed.

Lemma smax_Fin (ds : list Q) :
  forall b, series_max_from (Fin b) (map Fin ds) = Fin (fold_left qmax ds b).
Proof.
  induction ds as [|d ds IH]; intros b; [reflexivity|].
  cbn [map series_max_from F.is_nan fold_left].
  change (if (Fin b <? Fin d)%float then Fin d else Fin b)
    with (py_max (Fin b) (Fin d)).
  rewrite py_max_Fin. apply IH.
Qed.

Lemma fold_qmax_ge (ds : list Q) :
  forall b, b <= fold_left qmax ds b /\
       Forall (fun d => d <= fold_left qmax ds b) ds.
Proof.
  induction ds as [|d ds IH]; intros b; simpl; [split; [lra | constructor]|].
  destruct (IH (qmax b d)) as [H1 H2].
  pose proof (qmax_ge_l b d). pose proof (qmax_ge_r b d).
  split; [lra|]. constructor; [lra | exact H2].
Qed.

Lemma fold_qmax_in (ds : list Q) :
  forall b, In (fold_left qmax ds b) (b :: ds).
Proof.
  induction ds as [|d ds IH]; intros b; simpl; [now left|].
  destruct (IH (qmax b d)) as [H|H]; [|right; right; exact H].
  rewrite <- H. unfold qmax. destruct (Qle_bool d b); [left | right; left];
    reflexivity.
Qed.

Lemma drawdown_Fin (e : float) (qs : list Q) :
  drawdown (dd_loop (e :: map Fin qs)) = NaN :: map Fin (run_dd 0 qs).
Proof.
  rewrite dd_loop_state. unfold dd_state_at. cbn [drawdown].
  rewrite firstn_all2 by (rewrite dd_scan_length; lia).
  rewrite Nat.sub_diag. cbn [repeat]. rewrite app_nil_r.
  change (F.zero, NaN) with (Fin 0, NaN). now rewrite dd_scan_dd.
Qed.

End MaxFacts.

(** X4.  On a curve of numbers with at least two bars the maximum
    drawdown returned is a number that is not negative, bounds the
    drawdown of every bar from the second on, and is the drawdown of one
    of these bars. *)
Theorem max_drawdown_is_maximum (e : float) (qs : list Q) :
  qs <> [] ->
  let st := Performance.dd_loop (e :: map Fin qs) in
  exists m,
    fst (Performance.create_drawdowns (e :: map Fin qs)) = Fin m /\
    0 <= m /\
    (forall k, (k < length qs)%nat ->
          (at_ (Performance.drawdown st) (S k) <=? Fin m)%float = true) /\
    (exists k, (k < length qs)%nat /\
          at_ (Performance.drawdown st) (S k) = Fin m).
Proof.
  intros Hne st. subst st. unfold Performance.create_drawdowns. cbn [fst].
  rewrite MaxFacts.drawdown_Fin.
  pose proof (MaxFacts.run_dd_length 0 qs) as Hlen.
  pose proof (MaxFacts.run_dd_nonneg qs 0) as Hnn.
  destruct (run_dd 0 qs) as [|d ds] eqn:E.
  { destruct qs; [congruence | discriminate]. }
  exists (fold_left qmax ds d).
  destruct (MaxFacts.fold_qmax_ge ds d) as [Hb Hall].
  pose proof (MaxFacts.fold_qmax_in ds d) as Hin.
  split; [apply MaxFacts.smax_Fin|].
  split; [inversion Hnn; subst; lra|].
  split.
  - intros k Hk. unfold at_. cbn [nth].
    rewrite NumericScan.nth_map_Fin by (rewrite Hlen; exact Hk).
    apply NumericScan.leb_Fin.
    assert (Hall' : Forall (fun x => x <= fold_left qmax ds d) (d :: ds))
      by (constructor; assumption).
    rewrite Forall_forall in Hall'. apply Hall'. apply nth_In.
    rewrite Hlen. exact Hk.
  - destruct (In_nth _ _ 0 Hin) as (k & Hk & Hv).
    exists k. split; [now rewrite <- Hlen|].
    unfold at_. cbn [nth].
    rewrite NumericScan.nth_map_Fin by exact Hk. now rewrite Hv.
Qed.

Lemma max_drawdown_is_maximum_witness :
  exists m,
    fst (Performance.create_drawdowns (Fin 100 :: map Fin [90; 95; 80])) = Fin m
    /\ 0 <= m.
Proof.
  destruct (max_drawdown_is_maximum (Fin 100) [90; 95; 80])
    as (m & H1 & H2 & _); [discriminate|].
  exists m. split; assumption.
Defined.

Module DurationFacts.
Import Performance ScanFacts.

Lemma scan_step_dur_ok (prev : float * float) (e : float) :
  dur_ok (snd prev) -> dur_ok (du (scan_step prev e)).
Proof.
  intros H. unfold scan_step. cbn [du snd].
  destruct (_ == F.zero)%float; [simpl; lra|].
  destruct (snd prev) as [| | |q]; simpl in *; try tauto. lra.
Qed.

Lemma dd_scan_dur_ok (rest : Series) :
  forall prev, dur_ok (snd prev) ->
          Forall (fun x => dur_ok (du x)) (dd_scan prev rest).
Proof.
  induction rest as [|e r IH]; intros prev H; simpl; constructor.
  - now apply scan_step_dur_ok.
  - apply IH. cbn [snd]. now apply scan_step_dur_ok.
Qed.

Lemma prev_at_dur_ok (rest : Series) (k : nat) :
  (k < length rest)%nat -> dur_ok (snd (prev_at rest k)).
Proof.
  intros Hk. destruct k as [|j]; [exact I|]. cbn [prev_at snd].
  pose proof (dd_scan_dur_ok rest (F.zero, NaN) I) as Hall.
  rewrite Forall_forall in Hall. apply Hall. apply nth_In.
  rewrite dd_scan_length. lia.
Qed.

Lemma dur_ok_succ_not_zero (u : float) :
  dur_ok u -> (u + F.one == F.zero)%float = false.
Proof.
  destruct u as [| | |q]; simpl; try tauto. intros H.
  destruct (Qeq_bool (q + 1) 0) eqn:E; [|reflexivity].
  apply Qeq_bool_iff in E. lra.
Qed.

End DurationFacts.

(** X5.  For every curve and every bar from the second on, the duration
    written by the loop is 0 exactly when the drawdown of the bar
    compares equal to 0. *)
Theorem duration_zero_iff_drawdown_zero (e : float) (rest : Series) (k : nat) :
  (k < length rest)%nat ->
  let st := Performance.dd_loop (e :: rest) in
  (at_ (Performance.duration st) (S k) == F.zero)%float
  = (at_ (Performance.drawdown st) (S k) == F.zero)%float.
Proof.
  intros Hk st. subst st.
  destruct (NumericScan.scan_at e rest k Hk) as (_ & _ & H2 & H3).
  rewrite H2, H3, (ScanFacts.dd_scan_nth rest (F.zero, NaN) k Hk).
  fold (prev_at rest k). unfold scan_step. cbn [dd du fst snd].
  set (d := (py_max (fst (prev_at rest k)) (nth k rest NaN)
             - nth k rest NaN)%float).
  destruct (d == F.zero)%float eqn:E; [reflexivity|].
  apply DurationFacts.dur_ok_succ_not_zero.
  now apply DurationFacts.prev_at_dur_ok.
Qed.

Lemma duration_zero_iff_drawdown_zero_witness :
  let st := Performance.dd_loop (Fin 100 :: [Fin 90; Fin 80]) in
  (at_ (Performance.duration st) 2 == F.zero)%float
  = (at_ (Performance.drawdown st) 2 == F.zero)%float.
Proof.
  exact (duration_zero_iff_drawdown_zero (Fin 100) [Fin 90; Fin 80] 1 (le_n 2)).
Defined.

(** X6.  When the second bar of the curve is a negative number, the mark
    stays at its seed 0, the drawdown of that bar is the positive
    distance to 0, and its duration is NaN: it is computed from the
    unassigned [duration[0]]. *)
Theorem duration_undefined_after_negative_bar
        (e : float) (q : Q) (rest : Series) :
  q < 0 ->
  let st := Performance.dd_loop (e :: Fin q :: rest) in
  nth 1 (Performance.hwm st) NaN = Fin 0 /\
  at_ (Performance.drawdown st) 1 = Fin (0 - q) /\
  at_ (Performance.duration st) 1 = NaN.
Proof.
  intros Hq st. subst st.
  destruct (NumericScan.scan_at e (Fin q :: rest) 0) as (_ & H1 & H2 & H3);
    [simpl; lia|].
  rewrite H1, H2, H3. cbn [dd_scan nth]. unfold scan_step. cbn [hw dd du fst snd].
  unfold F.zero. rewrite NumericScan.py_max_Fin.
  assert (Hm : qmax 0 q = 0).
  { unfold qmax. destruct (Qle_bool q 0) eqn:E; [reflexivity|].
    assert (q <= 0) by lra. apply Qle_bool_iff in H. congruence. }
  rewrite Hm. repeat split.
  change ((Fin 0 - Fin q)%float == Fin 0)%float with (Qeq_bool (0 + - q) 0).
  destruct (Qeq_bool (0 + - q) 0) eqn:E; [|reflexivity].
  apply Qeq_bool_iff in E. lra.
Qed.

Lemma duration_undefined_after_negative_bar_witness :
  let st := Performance.dd_loop (Fin 1 :: Fin (-1) :: [Fin 2]) in
  nth 1 (Performance.hwm st) NaN = Fin 0 /\
  at_ (Performance.drawdown st) 1 = Fin (0 - (-1)) /\
  at_ (Performance.duration st) 1 = NaN.
Proof.
  apply (duration_undefined_after_negative_bar (Fin 1) (-1) [Fin 2]).
  reflexivity.
Defined.

(** ** More on the market-state latch *)

Module FlagFacts.
Import MrSpyIwm.

Lemma latch_step_flags (lm sm : float) (b : row) :
  is_flag lm -> is_flag sm ->
  is_flag (fst (latch_step lm sm b)) /\ is_flag (snd (latch_step lm sm b)).
Proof.
  intros Hl Hs. unfold latch_step.
  destruct (exits b == F.one)%float; [split; left; reflexivity|].
  destruct (longs b == F.one)%float; destruct (shorts b == F.one)%float;
    split; cbn [fst snd]; auto; right; reflexivity.
Qed.

Lemma latch_loop_flags (pairs : list row) :
  forall lm sm, is_flag lm -> is_flag sm ->
           Forall (fun b => is_flag (long_market b) /\ is_flag (short_market b))
                  (latch_loop lm sm pairs).
Proof.
  induction pairs as [|b rest IH]; intros lm sm Hl Hs; simpl; [constructor|].
  destruct (latch_step_flags lm sm b Hl Hs) as [H1 H2].
  destruct (latch_step lm sm b) as [lm' sm']. cbn [fst snd] in *.
  constructor; [split; assumption | now apply IH].
Qed.

Lemma latch_loop_keeps {A : Type} (f : row -> A) (pairs : list row) :
  (forall lm sm b, f (set_market lm sm b) = f b) ->
  forall lm sm, map f (latch_loop lm sm pairs) = map f pairs.
Proof.
  intros Hf. induction pairs as [|b rest IH]; intros lm sm; simpl; auto.
  destruct (latch_step lm sm b) as [lm' sm']. cbn [map].
  now rewrite Hf, IH.
Qed.

End FlagFacts.

(** X7.  [create_long_short_market_signals] returns one row per input
    row, leaves the close prices and the z-score of every row as they
    were, and writes only 0.0 or 1.0 into the two occupancy columns,
    whatever the z-scores (NaN and infinities included) and thresholds. *)
Theorem latch_output_shape (pairs : list MrSpyIwm.row) (ze zx : float) :
  let out := MrSpyIwm.create_long_short_market_signals pairs ze zx in
  length out = length pairs /\
  map MrSpyIwm.sym1_close out = map MrSpyIwm.sym1_close pairs /\
  map MrSpyIwm.sym2_close out = map MrSpyIwm.sym2_close pairs /\
  map MrSpyIwm.zscore out = map MrSpyIwm.zscore pairs /\
  Forall (fun b => is_flag (MrSpyIwm.long_market b) /\
                is_flag (MrSpyIwm.short_market b)) out.
Proof.
  intros out. subst out. unfold MrSpyIwm.create_long_short_market_signals.
  repeat split.
  - rewrite <- (length_map MrSpyIwm.zscore),
      (FlagFacts.latch_loop_keeps MrSpyIwm.zscore) by reflexivity.
    now rewrite !length_map.
  - rewrite (FlagFacts.latch_loop_keeps MrSpyIwm.sym1_close) by reflexivity.
    rewrite map_map. reflexivity.
  - rewrite (FlagFacts.latch_loop_keeps MrSpyIwm.sym2_close) by reflexivity.
    rewrite map_map. reflexivity.
  - rewrite (FlagFacts.latch_loop_keeps MrSpyIwm.zscore) by reflexivity.
    rewrite map_map. reflexivity.
  - apply FlagFacts.latch_loop_flags; left; reflexivity.
Qed.

Module HeldFacts.
Import MrSpyIwm LatchSpec.

Lemma latch_step_no_exit (lm sm : float) (b : row) :
  (exits b == F.one)%float = false ->
  latch_step lm sm b
  = (if (longs b == F.one)%float then F.one else lm,
     if (shorts b == F.one)%float then F.one else sm).
Proof. intros E. unfold latch_step. now rewrite E. Qed.

Lemma exit_upto_cons (b : row) (rest : list row) (j : nat) :
  exit_upto rest j -> exit_upto (b :: rest) (S j).
Proof.
  intros (k & bk & Hk & Hn & He). exists (S k), bk. repeat split; auto; lia.
Qed.

Lemma exit_between_cons (b : row) (rest : list row) (i j : nat) :
  exit_between rest i j -> exit_between (b :: rest) (S i) (S j).
Proof.
  intros (k & bk & Hk & Hn & He). exists (S k), bk. repeat split; auto; lia.
Qed.

Lemma exit_upto_between (b : row) (rest : list row) (j : nat) :
  exit_upto rest j -> exit_between (b :: rest) 0 (S j).
Proof.
  intros (k & bk & Hk & Hn & He). exists (S k), bk. repeat split; auto; lia.
Qed.

(** A long flag that is set stays set up to the next exit. *)
Lemma carry_long (pairs : list row) :
  forall sm j bj,
    nth_error pairs j = Some bj ->
    exit_upto pairs j \/
    exists b', nth_error (latch_loop F.one sm pairs) j = Some b' /\
          long_market b' = F.one.
Proof.
  induction pairs as [|b rest IH]; intros sm j bj Hj; [destruct j; discriminate|].
  destruct (exits b == F.one)%float eqn:E.
  { left. exists 0%nat, b. repeat split; auto; lia. }
  cbn [latch_loop]. rewrite (latch_step_no_exit _ _ _ E).
  assert (Hone : (if (longs b == F.one)%float then F.one else F.one) = F.one)
    by (destruct (longs b == F.one)%float; reflexivity).
  rewrite Hone. destruct j as [|j].
  - right. eexists. split; reflexivity.
  - destruct (IH (if (shorts b == F.one)%float then F.one else sm) j bj Hj)
      as [H|H]; [left; now apply exit_upto_cons | right; exact H].
Qed.

Lemma carry_short (pairs : list row) :
  forall lm j bj,
    nth_error pairs j = Some bj ->
    exit_upto pairs j \/
    exists b', nth_error (latch_loop lm F.one pairs) j = Some b' /\
          short_market b' = F.one.
Proof.
  induction pairs as [|b rest IH]; intros lm j bj Hj; [destruct j; discriminate|].
  destruct (exits b == F.one)%float eqn:E.
  { left. exists 0%nat, b. repeat split; auto; lia. }
  cbn [latch_loop]. rewrite (latch_step_no_exit _ _ _ E).
  assert (Hone : (if (shorts b == F.one)%float then F.one else F.one) = F.one)
    by (destruct (shorts b == F.one)%float; reflexivity).
  rewrite Hone. destruct j as [|j].
  - right. eexists. split; reflexivity.
  - destruct (IH (if (longs b == F.one)%float then F.one else lm) j bj Hj)
      as [H|H]; [left; now apply exit_upto_cons | right; exact H].
Qed.

End HeldFacts.

Module EntryFacts.
Import MrSpyIwm LatchSpec HeldFacts.

Lemma enters_long_step (lm sm : float) (b : row) :
  enters_long b -> exists sm', latch_step lm sm b = (F.one, sm').
Proof.
  intros [Hl He]. unfold fires_long, fires_exit in *.
  destruct (exits b == F.one)%float eqn:E; [congruence|].
  rewrite (latch_step_no_exit _ _ _ E), Hl. eexists; reflexivity.
Qed.

Lemma enters_short_step (lm sm : float) (b : row) :
  enters_short b -> exists lm', latch_step lm sm b = (lm', F.one).
Proof.
  intros [Hs He]. unfold fires_short, fires_exit in *.
  destruct (exits b == F.one)%float eqn:E; [congruence|].
  rewrite (latch_step_no_exit _ _ _ E), Hs. eexists; reflexivity.
Qed.

(** An entry that takes effect sets its flag on its own bar. *)
Lemma entered_long_at (pairs : list row) :
  forall lm sm j bj,
    nth_error pairs j = Some bj -> enters_long bj ->
    exists b', nth_error (latch_loop lm sm pairs) j = Some b' /\
          long_market b' = F.one.
Proof.
  induction pairs as [|b rest IH]; intros lm sm j bj Hj Hl;
    [destruct j; discriminate|].
  cbn [latch_loop]. destruct j as [|j].
  - injection Hj as ->. destruct (enters_long_step lm sm bj Hl) as (sm' & ->).
    eexists. split; reflexivity.
  - destruct (latch_step lm sm b) as [lm' sm']. now apply IH with (bj := bj).
Qed.

Lemma entered_short_at (pairs : list row) :
  forall lm sm j bj,
    nth_error pairs j = Some bj -> enters_short bj ->
    exists b', nth_error (latch_loop lm sm pairs) j = Some b' /\
          short_market b' = F.one.
Proof.
  induction pairs as [|b rest IH]; intros lm sm j bj Hj Hs;
    [destruct j; discriminate|].
  cbn [latch_loop]. destruct j as [|j].
  - injection Hj as ->. destruct (enters_short_step lm sm bj Hs) as (lm' & ->).
    eexists. split; reflexivity.
  - destruct (latch_step lm sm b) as [lm' sm']. now apply IH with (bj := bj).
Qed.

(** After a long entry the long flag is set on every later bar up to
    the next exit. *)
Lemma held_long (pairs : list row) :
  forall lm sm i j bi bj,
    (i <= j)%nat -> nth_error pairs i = Some bi -> nth_error pairs j = Some bj ->
    enters_long bi ->
    exit_between pairs i j \/
    exists b', nth_error (latch_loop lm sm pairs) j = Some b' /\
          long_market b' = F.one.
Proof.
  induction pairs as [|b rest IH]; intros lm sm i j bi bj Hij Hi Hj Hl;
    [destruct i; discriminate|].
  cbn [latch_loop]. destruct i as [|i].
  - injection Hi as ->. destruct (enters_long_step lm sm bi Hl) as (sm' & ->).
    destruct j as [|j]; [right; eexists; split; reflexivity|].
    destruct (carry_long rest sm' j bj Hj) as [H|H];
      [left; now apply exit_upto_between | right; exact H].
  - destruct j as [|j]; [lia|].
    destruct (latch_step lm sm b) as [lm' sm'].
    destruct (IH lm' sm' i j bi bj) as [H|H]; auto; try lia.
    left. now apply exit_between_cons.
Qed.

Lemma held_short (pairs : list row) :
  forall lm sm i j bi bj,
    (i <= j)%nat -> nth_error pairs i = Some bi -> nth_error pairs j = Some bj ->
    enters_short bi ->
    exit_between pairs i j \/
    exists b', nth_error (latch_loop lm sm pairs) j = Some b' /\
          short_market b' = F.one.
Proof.
  induction pairs as [|b rest IH]; intros lm sm i j bi bj Hij Hi Hj Hs;
    [destruct i; discriminate|].
  cbn [latch_loop]. destruct i as [|i].
  - injection Hi as ->. destruct (enters_short_step lm sm bi Hs) as (lm' & ->).
    destruct j as [|j]; [right; eexists; split; reflexivity|].
    destruct (carry_short rest lm' j bj Hj) as [H|H];
      [left; now apply exit_upto_between | right; exact H].
  - destruct j as [|j]; [lia|].
    destruct (latch_step lm sm b) as [lm' sm'].
    destruct (IH lm' sm' i j bi bj) as [H|H]; auto; try lia.
    left. now apply exit_between_cons.
Qed.

End EntryFacts.

(** X8.  The occupancy flags written by the loop are mutually exclusive
    on every bar if and only if every two entries of opposite direction
    that take effect are separated by an exit trigger. *)
Theorem latch_exclusive_iff_separated (pairs : list MrSpyIwm.row) :
  (forall t b,
      nth_error (MrSpyIwm.latch_loop F.zero F.zero pairs) t = Some b ->
      (MrSpyIwm.long_market b * MrSpyIwm.short_market b == F.zero)%float = true)
  <-> LatchSpec.separated pairs.
Proof.
  split.
  - intros Hex i j bi bj Hi Hj Hl Hs.
    destruct (le_ge_dec i j) as [Hij|Hij].
    + rewrite Nat.min_l, Nat.max_r by lia.
      destruct (EntryFacts.held_long pairs F.zero F.zero i j bi bj Hij Hi Hj Hl)
        as [H|(b' & Hb & Hlm)]; [exact H|exfalso].
      destruct (EntryFacts.entered_short_at pairs F.zero F.zero j bj Hj Hs)
        as (b2 & Hb2 & Hsm).
      rewrite Hb in Hb2. injection Hb2 as <-.
      specialize (Hex j b' Hb). rewrite Hlm, Hsm in Hex. discriminate Hex.
    + rewrite Nat.min_r, Nat.max_l by lia.
      destruct (EntryFacts.held_short pairs F.zero F.zero j i bj bi Hij Hj Hi Hs)
        as [H|(b' & Hb & Hsm)]; [exact H|exfalso].
      destruct (EntryFacts.entered_long_at pairs F.zero F.zero i bi Hi Hl)
        as (b2 & Hb2 & Hlm).
      rewrite Hb in Hb2. injection Hb2 as <-.
      specialize (Hex i b' Hb). rewrite Hlm, Hsm in Hex. discriminate Hex.
  - intros Hsep t b Ht.
    pose proof (LatchProof.latch_loop_exclusive pairs F.zero F.zero Hsep
                  (LatchProof.compatible_flat pairs)) as Hall.
    rewrite Forall_forall in Hall. apply Hall.
    eapply nth_error_In; eassumption.
Qed.

Module ThresholdFacts.
Import MrSpyIwm LatchSpec.

Lemma leb_Fin_iff (a b : Q) : (Fin a <=? Fin b)%float = true <-> a <= b.
Proof.
  split; [|apply NumericScan.leb_Fin].
  unfold F.leb. simpl. intros H. apply orb_true_iff in H.
  destruct H as [H|H].
  - apply negb_true_iff in H. destruct (Qlt_le_dec a b) as [Hlt|Hge]; [lra|].
    apply Qle_bool_iff in Hge. congruence.
  - apply Qeq_bool_iff in H. lra.
Qed.

Lemma bool_to_float_one (c : bool) :
  (bool_to_float c == F.one)%float = true <-> c = true.
Proof. destruct c; simpl; split; intros H; auto; discriminate. Qed.

End ThresholdFacts.

(** X9.  With a numeric z-score and thresholds 0 < z_entry and
    z_exit < z_entry, the three triggers computed for a bar are
    [z <= -z_entry], [z >= z_entry] and [|z| <= z_exit], and no two of
    them fire on the same bar. *)
Theorem triggers_pairwise_exclusive (b : MrSpyIwm.row) (z e x : Q) :
  MrSpyIwm.zscore b = Fin z -> 0 < e -> x < e ->
  let r := MrSpyIwm.threshold_row (Fin e) (Fin x) b in
  (LatchSpec.fires_long r <-> z <= - e) /\
  (LatchSpec.fires_short r <-> e <= z) /\
  (LatchSpec.fires_exit r <-> Qabs z <= x) /\
  ~ (LatchSpec.fires_long r /\ LatchSpec.fires_short r) /\
  ~ (LatchSpec.fires_long r /\ LatchSpec.fires_exit r) /\
  ~ (LatchSpec.fires_short r /\ LatchSpec.fires_exit r).
Proof.
  intros Hz He Hx r. subst r.
  unfold LatchSpec.fires_long, LatchSpec.fires_short, LatchSpec.fires_exit,
    MrSpyIwm.threshold_row.
  cbn [MrSpyIwm.longs MrSpyIwm.shorts MrSpyIwm.exits MrSpyIwm.set_market
       MrSpyIwm.set_triggers MrSpyIwm.zscore].
  rewrite Hz. cbn [F.neg fabs].
  rewrite !ThresholdFacts.bool_to_float_one, !ThresholdFacts.leb_Fin_iff.
  pose proof (Qabs_Qle_condition z x) as Habs.
  repeat split; try tauto; intros [H1 H2]; try lra;
    apply Habs in H2; lra.
Qed.

Lemma triggers_pairwise_exclusive_witness :
  let r := MrSpyIwm.threshold_row (Fin 2) (Fin 1)
             (MrSpyIwm.trigger_row 0 0 0) in
  (LatchSpec.fires_long r <-> 0 <= - (2)) /\
  (LatchSpec.fires_short r <-> 2 <= 0) /\
  (LatchSpec.fires_exit r <-> Qabs 0 <= 1) /\
  ~ (LatchSpec.fires_long r /\ LatchSpec.fires_short r) /\
  ~ (LatchSpec.fires_long r /\ LatchSpec.fires_exit r) /\
  ~ (LatchSpec.fires_short r /\ LatchSpec.fires_exit r).
Proof.
  apply (triggers_pairwise_exclusive (MrSpyIwm.trigger_row 0 0 0) 0 2 1);
    reflexivity.
Defined.

(** X10.  A bar whose z-score is NaN fires none of the three triggers,
    so the loop carries both flags over it unchanged. *)
Theorem nan_zscore_carries_state (b : MrSpyIwm.row) (ze zx lm sm : float) :
  MrSpyIwm.zscore b = NaN ->
  let r := MrSpyIwm.threshold_row ze zx b in
  MrSpyIwm.longs r = F.zero /\ MrSpyIwm.shorts r = F.zero /\
  MrSpyIwm.exits r = F.zero /\
  MrSpyIwm.latch_step lm sm r = (lm, sm).
Proof.
  intros Hz r. subst r. unfold MrSpyIwm.latch_step, MrSpyIwm.threshold_row.
  cbn [MrSpyIwm.longs MrSpyIwm.shorts MrSpyIwm.exits MrSpyIwm.set_market
       MrSpyIwm.set_triggers MrSpyIwm.zscore].
  rewrite Hz. destruct ze, zx; repeat split; reflexivity.
Qed.

Lemma nan_zscore_carries_state_witness :
  MrSpyIwm.latch_step F.one F.zero
    (MrSpyIwm.threshold_row (Fin 2) (Fin 1) nan_bar)
  = (F.one, F.zero).
Proof.
  destruct (nan_zscore_carries_state nan_bar (Fin 2) (Fin 1) F.one F.zero
              eq_refl) as (_ & _ & _ & H).
  exact H.
Defined.

(** ** More on the pairs-trading portfolio *)

Module TotalFacts.
Import MrSpyIwm BookFacts.

Lemma binop_Fin (f : float -> float -> float) (g : Q -> Q -> Q) :
  (forall a b, f (Fin a) (Fin b) = Fin (g a b)) ->
  forall xs ys, length ys = length xs ->
           binop f (map Fin xs) (map Fin ys) = map Fin (map2Q g xs ys).
Proof.
  intros Hfg. induction xs as [|x xs IH]; intros [|y ys] H; simpl in H;
    try lia; [reflexivity|].
  cbn [map binop map2Q]. rewrite Hfg, IH by lia. reflexivity.
Qed.

Lemma numeric_lengths (pairs : list row) (c1 c2 lm sm : list Q) :
  numeric_pairs pairs c1 c2 lm sm ->
  length c1 = length pairs /\ length c2 = length pairs /\
  length lm = length pairs /\ length sm = length pairs.
Proof.
  intros (H1 & H2 & H3 & H4).
  apply (f_equal (@length float)) in H1, H2, H3, H4.
  rewrite !length_map in *. auto.
Qed.

Lemma total_Fin (pairs : list row) (c1 c2 lm sm : list Q) :
  numeric_pairs pairs c1 c2 lm sm ->
  positions (create_portfolio_returns pairs)
  = map Fin (map2Q (fun l s => l + - s) lm sm) /\
  total (create_portfolio_returns pairs) = map Fin (totals c1 c2 lm sm).
Proof.
  intros Hn. destruct (numeric_lengths _ _ _ _ _ Hn) as (L1 & L2 & L3 & L4).
  destruct Hn as (H1 & H2 & H3 & H4).
  unfold create_portfolio_returns, totals. cbn [positions total].
  rewrite H1, H2, H3, H4.
  rewrite (binop_Fin F.sub (fun l s => l + - s)) by (auto; lia).
  rewrite (map_map Fin (fun c => (F.neg F.one * c)%float)).
  change (map (fun x => (F.neg F.one * Fin x)%float) c1)
    with (map (fun x => Fin ((fun c => - (1) * c) x)) c1).
  rewrite <- (map_map (fun c => - (1) * c) Fin).
  rewrite !(binop_Fin F.mul Qmult)
    by (auto; rewrite ?length_map, map2Q_length; lia).
  rewrite (binop_Fin F.add Qplus)
    by (auto; rewrite !map2Q_length; rewrite ?length_map, ?map2Q_length; lia).
  split; reflexivity.
Qed.

End TotalFacts.

Lemma totals_parts (c1 c2 lm sm : list Q) (n : nat) :
  length c1 = n -> length c2 = n -> length lm = n -> length sm = n ->
  let pos := map2Q (fun l s => l + - s) lm sm in
  length pos = n /\
  length (map2Q Qmult (map (fun c => - (1) * c) c1) pos) = n /\
  length (map2Q Qmult c2 pos) = n.
Proof.
  intros H1 H2 H3 H4 pos.
  assert (Hpos : length pos = n)
    by (unfold pos; rewrite BookFacts.map2Q_length; lia).
  repeat split; auto.
  - rewrite BookFacts.map2Q_length; rewrite length_map; lia.
  - rewrite BookFacts.map2Q_length; lia.
Qed.

Lemma totals_length (c1 c2 lm sm : list Q) (n : nat) :
  length c1 = n -> length c2 = n -> length lm = n -> length sm = n ->
  length (totals c1 c2 lm sm) = n.
Proof.
  intros H1 H2 H3 H4.
  destruct (totals_parts c1 c2 lm sm n H1 H2 H3 H4) as (Hp & Ha & Hb).
  unfold totals. rewrite BookFacts.map2Q_length; lia.
Qed.

Lemma totals_nth (c1 c2 lm sm : list Q) (n t : nat) :
  length c1 = n -> length c2 = n -> length lm = n -> length sm = n ->
  (t < n)%nat ->
  nth t (totals c1 c2 lm sm) 0
  == (nth t lm 0 - nth t sm 0) * (nth t c2 0 - nth t c1 0).
Proof.
  intros H1 H2 H3 H4 Ht.
  destruct (totals_parts c1 c2 lm sm n H1 H2 H3 H4) as (Hp & Ha & Hb).
  unfold totals.
  rewrite BookFacts.map2Q_nth by lia.
  rewrite (BookFacts.map2Q_nth Qmult (map (fun c => - (1) * c) c1))
    by (rewrite ?length_map; lia).
  rewrite (BookFacts.map2Q_nth Qmult c2) by lia.
  rewrite (BookFacts.map2Q_nth (fun l s => l + - s)) by lia.
  change 0 with ((fun c => - (1) * c) 0) at 1.
  rewrite (map_nth (fun c => - (1) * c)). ring.
Qed.

(** X11.  On numeric closes and flags the portfolio's position is
    [long_market - short_market] and its total is the position times the
    spread of the two closes, [position * (close2 - close1)], on every
    bar. *)
Theorem pairs_total_formula (pairs : list MrSpyIwm.row)
        (c1 c2 lm sm : list Q) (t : nat) :
  numeric_pairs pairs c1 c2 lm sm -> (t < length pairs)%nat ->
  let p := MrSpyIwm.create_portfolio_returns pairs in
  at_ (MrSpyIwm.positions p) t = Fin (nth t lm 0 - nth t sm 0) /\
  exists T, at_ (MrSpyIwm.total p) t = Fin T /\
       T == (nth t lm 0 - nth t sm 0) * (nth t c2 0 - nth t c1 0).
Proof.
  intros Hn Ht p. subst p.
  destruct (TotalFacts.numeric_lengths _ _ _ _ _ Hn) as (L1 & L2 & L3 & L4).
  destruct (TotalFacts.total_Fin _ _ _ _ _ Hn) as [Hp HT].
  rewrite Hp, HT. unfold at_. split.
  - rewrite NumericScan.nth_map_Fin
      by (rewrite BookFacts.map2Q_length; lia).
    rewrite BookFacts.map2Q_nth by lia. reflexivity.
  - exists (nth t (totals c1 c2 lm sm) 0). split.
    + apply NumericScan.nth_map_Fin.
      rewrite (totals_length c1 c2 lm sm (length pairs)); auto.
    + apply (totals_nth c1 c2 lm sm (length pairs)); auto.
Qed.

Lemma four_bars_numeric :
  numeric_pairs four_bars [10; 10; 10; 10] [20; 20; 22; 23]
                [0; 1; 1; 0] [0; 0; 0; 0].
Proof. repeat split. Qed.

Lemma pairs_total_formula_witness :
  at_ (MrSpyIwm.positions (MrSpyIwm.create_portfolio_returns four_bars)) 2
  = Fin (1 - 0) /\
  exists T,
    at_ (MrSpyIwm.total (MrSpyIwm.create_portfolio_returns four_bars)) 2
    = Fin T /\
    T == (1 - 0) * (22 - 10).
Proof.
  apply (pairs_total_formula four_bars [10; 10; 10; 10] [20; 20; 22; 23]
           [0; 1; 1; 0] [0; 0; 0; 0] 2 four_bars_numeric).
  repeat constructor.
Defined.

Module GrowthFacts.
Import MrSpyIwm.

Lemma clean_pct_Fin (a b : Q) :
  clean_cell (Fin b / Fin a - F.one)%float = Fin (qclean a b).
Proof.
  unfold F.div, F.sgn, qclean.
  destruct (Qcompare a 0) eqn:Ea.
  - destruct (Qcompare b 0); reflexivity.
  - change (clean_cell (Fin (b / a) - F.one)%float)
      with (if Qeq_bool (b / a + - (1)) (- (1)) || false
            then F.zero else Fin (b / a + - (1))).
    destruct (Qeq_bool (b / a + - (1)) (- (1))); reflexivity.
  - change (clean_cell (Fin (b / a) - F.one)%float)
      with (if Qeq_bool (b / a + - (1)) (- (1)) || false
            then F.zero else Fin (b / a + - (1))).
    destruct (Qeq_bool (b / a + - (1)) (- (1))); reflexivity.
Qed.

Lemma clean_pct_from_Fin (rest : list Q) :
  forall a, map clean_cell (pct_change_from (Fin a) (map Fin rest))
       = map Fin (qcleans a rest).
Proof.
  induction rest as [|b rest IH]; intros a; [reflexivity|].
  cbn [map pct_change_from qcleans]. now rewrite clean_pct_Fin, IH.
Qed.

Lemma cumprod_from_Fin (rs : list Q) :
  forall g, cumprod_from (Fin g) (map (fun r => (r + F.one)%float) (map Fin rs))
       = map Fin (qprods g rs).
Proof.
  induction rs as [|r rs IH]; intros g; [reflexivity|].
  cbn [map cumprod_from qprods F.is_nan F.add F.mul F.one].
  now rewrite <- IH.
Qed.

Lemma qprods_length (rs : list Q) : forall g, length (qprods g rs) = length rs.
Proof. induction rs; intros; simpl; auto. Qed.

Lemma qcleans_length (rest : list Q) :
  forall a, length (qcleans a rest) = length rest.
Proof. induction rest; intros; simpl; auto. Qed.

Lemma qprods_nth (rs : list Q) :
  forall g k, (S k < length rs)%nat ->
         nth (S k) (qprods g rs) 0
         = nth k (qprods g rs) 0 * (nth (S k) rs 0 + 1).
Proof.
  induction rs as [|r rs IH]; intros g k Hk; simpl in Hk; [lia|].
  cbn [qprods]. destruct k as [|k].
  - destruct rs as [|r2 rs]; [simpl in Hk; lia | reflexivity].
  - change (nth (S (S k)) (g * (r + 1) :: qprods (g * (r + 1)) rs) 0)
      with (nth (S k) (qprods (g * (r + 1)) rs) 0).
    rewrite IH by lia. reflexivity.
Qed.

Lemma qcleans_nth (rest : list Q) :
  forall a k, (k < length rest)%nat ->
         nth k (qcleans a rest) 0 = qclean (nth k (a :: rest) 0) (nth k rest 0).
Proof.
  induction rest as [|b rest IH]; intros a k Hk; simpl in Hk; [lia|].
  destruct k as [|k]; [reflexivity|].
  cbn [qcleans]. change (nth (S k) (qclean a b :: qcleans b rest) 0)
    with (nth k (qcleans b rest) 0).
  rewrite IH by lia. reflexivity.
Qed.

Lemma qclean_period_return (a b : Q) : qclean a b == period_return a b.
Proof.
  unfold qclean, period_return.
  destruct (Qcompare a 0) eqn:Ea.
  - apply Qeq_alt in Ea. apply Qeq_bool_iff in Ea. rewrite Ea. reflexivity.
  - assert (Ha : ~ a == 0) by (intro H; apply Qeq_alt in H; congruence).
    assert (Hf : Qeq_bool a 0 = false)
      by (destruct (Qeq_bool a 0) eqn:E; auto; apply Qeq_bool_iff in E; tauto).
    rewrite Hf. cbn [orb].
    destruct (Qeq_bool (b / a + - (1)) (- (1))) eqn:E1;
      destruct (Qeq_bool b 0) eqn:E2; try reflexivity.
    + apply Qeq_bool_iff in E1.
      assert (Hb : b == 0).
      { assert (H0 : b / a == 0) by lra.
        rewrite <- (Qmult_div_r b a Ha), H0. ring. }
      apply Qeq_bool_iff in Hb. congruence.
    + apply Qeq_bool_iff in E2.
      assert (H1 : b / a + - (1) == - (1)) by (rewrite E2; field; exact Ha).
      apply Qeq_bool_iff in H1. congruence.
  - assert (Ha : ~ a == 0) by (intro H; apply Qeq_alt in H; congruence).
    assert (Hf : Qeq_bool a 0 = false)
      by (destruct (Qeq_bool a 0) eqn:E; auto; apply Qeq_bool_iff in E; tauto).
    rewrite Hf. cbn [orb].
    destruct (Qeq_bool (b / a + - (1)) (- (1))) eqn:E1;
      destruct (Qeq_bool b 0) eqn:E2; try reflexivity.
    + apply Qeq_bool_iff in E1.
      assert (Hb : b == 0).
      { assert (H0 : b / a == 0) by lra.
        rewrite <- (Qmult_div_r b a Ha), H0. ring. }
      apply Qeq_bool_iff in Hb. congruence.
    + apply Qeq_bool_iff in E2.
      assert (H1 : b / a + - (1) == - (1)) by (rewrite E2; field; exact Ha).
      apply Qeq_bool_iff in H1. congruence.
Qed.

End GrowthFacts.

Lemma growth_Fin (T0 : Q) (Ts : list Q) :
  cumprod (map (fun r => (r + F.one)%float)
               (MrSpyIwm.clean_returns (map Fin (T0 :: Ts))))
  = map Fin (qprods 1 (0 :: qcleans T0 Ts)).
Proof.
  rewrite PairsFacts.clean_returns_map, PairsFacts.pct_change_Fin.
  change (map clean_cell (NaN :: pct_change_from (Fin T0) (map Fin Ts)))
    with (clean_cell NaN
          :: map clean_cell (pct_change_from (Fin T0) (map Fin Ts))).
  rewrite GrowthFacts.clean_pct_from_Fin.
  change (clean_cell NaN :: map Fin (qcleans T0 Ts))
    with (map Fin (0 :: qcleans T0 Ts)).
  exact (GrowthFacts.cumprod_from_Fin (0 :: qcleans T0 Ts) 1).
Qed.

(** X12.  On numeric closes and flags the returned curve grows from one
    bar to the next by the period return of the total, with the return
    taken as 0 whenever the previous or the current total is 0:
    [returns[t+1] = returns[t] * (1 + r)], where r = 0 if
    [total[t] = 0] or [total[t+1] = 0], else [total[t+1]/total[t] - 1]. *)
Theorem growth_curve_recursion (pairs : list MrSpyIwm.row)
        (c1 c2 lm sm : list Q) (t : nat) :
  numeric_pairs pairs c1 c2 lm sm -> (S t < length pairs)%nat ->
  let p := MrSpyIwm.create_portfolio_returns pairs in
  exists g g' T T',
    at_ (MrSpyIwm.returns p) t = Fin g /\
    at_ (MrSpyIwm.returns p) (S t) = Fin g' /\
    at_ (MrSpyIwm.total p) t = Fin T /\
    at_ (MrSpyIwm.total p) (S t) = Fin T' /\
    g' == g * (1 + period_return T T').
Proof.
  intros Hn Ht p.
  destruct (TotalFacts.numeric_lengths _ _ _ _ _ Hn) as (L1 & L2 & L3 & L4).
  destruct (TotalFacts.total_Fin _ _ _ _ _ Hn) as [_ HT].
  pose proof (totals_length c1 c2 lm sm (length pairs) L1 L2 L3 L4) as Hlen.
  assert (Hr : MrSpyIwm.returns p
               = cumprod (map (fun r => (r + F.one)%float)
                              (MrSpyIwm.clean_returns (MrSpyIwm.total p))))
    by reflexivity.
  subst p. rewrite Hr, HT. clear Hr HT.
  destruct (totals c1 c2 lm sm) as [|T0 Ts]; [simpl in Hlen; lia|].
  simpl in Hlen. rewrite growth_Fin.
  set (rs := 0 :: qcleans T0 Ts).
  assert (Hrs : length rs = length pairs)
    by (unfold rs; simpl; rewrite GrowthFacts.qcleans_length; lia).
  exists (nth t (qprods 1 rs) 0), (nth (S t) (qprods 1 rs) 0),
    (nth t (T0 :: Ts) 0), (nth (S t) (T0 :: Ts) 0).
  unfold at_. repeat split.
  - apply NumericScan.nth_map_Fin. rewrite GrowthFacts.qprods_length. lia.
  - apply NumericScan.nth_map_Fin. rewrite GrowthFacts.qprods_length. lia.
  - apply NumericScan.nth_map_Fin. simpl. lia.
  - apply NumericScan.nth_map_Fin. simpl. lia.
  - rewrite GrowthFacts.qprods_nth by lia.
    unfold rs.
    change (nth (S t) (0 :: qcleans T0 Ts) 0) with (nth t (qcleans T0 Ts) 0).
    rewrite GrowthFacts.qcleans_nth by lia.
    rewrite GrowthFacts.qclean_period_return.
    change (nth (S t) (T0 :: Ts) 0) with (nth t Ts 0). ring.
Qed.

Lemma growth_curve_recursion_witness :
  exists g g' T T',
    at_ (MrSpyIwm.returns (MrSpyIwm.create_portfolio_returns four_bars)) 1
    = Fin g /\
    at_ (MrSpyIwm.returns (MrSpyIwm.create_portfolio_returns four_bars)) 2
    = Fin g' /\
    at_ (MrSpyIwm.total (MrSpyIwm.create_portfolio_returns four_bars)) 1
    = Fin T /\
    at_ (MrSpyIwm.total (MrSpyIwm.create_portfolio_returns four_bars)) 2
    = Fin T' /\
    g' == g * (1 + period_return T T').
Proof.
  apply (growth_curve_recursion four_bars [10; 10; 10; 10] [20; 20; 22; 23]
           [0; 1; 1; 0] [0; 0; 0; 0] 1 four_bars_numeric).
  repeat constructor.
Defined.

(** ** More on the two accountants *)

Lemma close_total_value (c : MarketOnClosePortfolio.t)
      (pos price : list Q) (cap : Q) (t : nat) :
  close_book c pos price cap -> (1 <= t < length pos)%nat ->
  exists a,
    at_ (MarketOnClosePortfolio.total
           (MarketOnClosePortfolio.backtest_portfolio c)) t = Fin a /\
    a == cap - traded pos price t + nth t pos 0 * nth t price 0.
Proof.
  intros Hc Ht.
  rewrite (CloseFacts.close_total_at c pos price cap Hc) by lia.
  destruct (CloseFacts.close_cash_at c pos price cap Hc t Ht) as (q & -> & Hq).
  rewrite (CloseFacts.close_holdings_at c pos price cap Hc) by lia.
  eexists. split; [reflexivity|]. rewrite Hq. ring.
Qed.




Lemma three_bars_close_book :
  close_book three_bars_close [100; 100; 0] [10; 11; 12] 1000.
Proof. repeat split. Qed.



(** X15.  The close-fill accountant hands back a returns column whose
    first two entries are NaN: the first because a percentage change has
    no predecessor, the second because [total[0]] is NaN. *)
Theorem close_returns_start_undefined
        (c : MarketOnClosePortfolio.t) (pos price : list Q) (cap : Q) :
  close_book c pos price cap -> (2 <= length pos)%nat ->
  let p := MarketOnClosePortfolio.backtest_portfolio c in
  length (MarketOnClosePortfolio.returns p) = length pos /\
  at_ (MarketOnClosePortfolio.total p) 0 = NaN /\
  at_ (MarketOnClosePortfolio.returns p) 0 = NaN /\
  at_ (MarketOnClosePortfolio.returns p) 1 = NaN.
Proof.
  intros Hc Hn p. subst p.
  assert (Hlen : length (MarketOnClosePortfolio.total
                           (MarketOnClosePortfolio.backtest_portfolio c))
                 = length pos).
  { change (MarketOnClosePortfolio.total
              (MarketOnClosePortfolio.backtest_portfolio c))
      with (binop F.add
              (MarketOnClosePortfolio.cash
                 (MarketOnClosePortfolio.backtest_portfolio c))
              (MarketOnClosePortfolio.holdings
                 (MarketOnClosePortfolio.backtest_portfolio c))).
    rewrite binop_length, (CloseFacts.close_cash_length c pos price cap Hc),
      (CloseFacts.close_holdings_length c pos price cap Hc). lia. }
  assert (H0 : at_ (MarketOnClosePortfolio.total
                      (MarketOnClosePortfolio.backtest_portfolio c)) 0 = NaN).
  { rewrite (CloseFacts.close_total_at c pos price cap Hc) by lia.
    destruct pos as [|p0 ps] eqn:E; [simpl in Hn; lia|]. rewrite <- E in *.
    now rewrite (CloseFacts.close_cash_head c pos price cap Hc p0 ps E). }
  change (MarketOnClosePortfolio.returns
            (MarketOnClosePortfolio.backtest_portfolio c))
    with (pct_change (MarketOnClosePortfolio.total
                        (MarketOnClosePortfolio.backtest_portfolio c))).
  repeat split.
  - now rewrite PairsFacts.pct_change_length.
  - exact H0.
  - destruct (MarketOnClosePortfolio.total _); reflexivity.
  - rewrite pct_change_pad_at by lia.
    rewrite PairsFacts.pad_head, H0, div_nan_r. reflexivity.
Qed.

Lemma close_returns_start_undefined_witness :
  let p := MarketOnClosePortfolio.backtest_portfolio three_bars_close in
  length (MarketOnClosePortfolio.returns p) = 3%nat /\
  at_ (MarketOnClosePortfolio.total p) 0 = NaN /\
  at_ (MarketOnClosePortfolio.returns p) 0 = NaN /\
  at_ (MarketOnClosePortfolio.returns p) 1 = NaN.
Proof.
  exact (close_returns_start_undefined three_bars_close
           [100; 100; 0] [10; 11; 12] 1000 three_bars_close_book
           (le_S 2 2 (le_n 2))).
Defined.

(** ** Moving-average crossover signals *)

Module CrossFacts.
Import MovingAverageCrossStrategy.

Lemma nth_map_seq (f : nat -> float) (n i : nat) :
  (i < n)%nat -> nth i (map f (seq 0 n)) NaN = f i.
Proof.
  intros Hi. rewrite (nth_indep _ NaN (f 0%nat)) by now rewrite length_map, length_seq.
  rewrite map_nth, seq_nth by exact Hi. reflexivity.
Qed.

Lemma rolling_mean_at_nth (w : nat) (s : Series) (i : nat) :
  (i < length s)%nat -> at_ (rolling_mean w s) i = rolling_mean_at w s i.
Proof. intros Hi. unfold at_, rolling_mean. now apply nth_map_seq. Qed.

Lemma rolling_mean_warmup (w : nat) (s : Series) (i : nat) :
  (S i < w)%nat -> at_ (rolling_mean w s) i = NaN.
Proof.
  intros Hw. destruct (Nat.lt_ge_cases i (length s)) as [Hi|Hi].
  - rewrite rolling_mean_at_nth by exact Hi. unfold rolling_mean_at.
    destruct (Nat.ltb_spec (S i) w); [reflexivity | lia].
  - unfold at_, rolling_mean. apply nth_overflow.
    now rewrite length_map, length_seq.
Qed.

Lemma ltb_irrefl (x : float) : (x <? x)%float = false.
Proof.
  destruct x as [| | |q]; try reflexivity. simpl.
  apply negb_false_iff. apply Qle_bool_iff. lra.
Qed.

Lemma ltb_nan_l (x : float) : (NaN <? x)%float = false.
Proof. reflexivity. Qed.

Lemma signal_at_flag (sw : nat) (short long : Series) (i : nat) :
  is_flag (signal_at sw short long i).
Proof.
  unfold signal_at. destruct (i <? sw)%nat; [left; reflexivity|].
  destruct (at_ long i <? at_ short i)%float; [right | left]; reflexivity.
Qed.

Lemma signal_nth (self : t) (i : nat) :
  (i < length (Close (bars self)))%nat ->
  at_ (signal (signals_frame self)) i
  = signal_at (short_window self)
              (rolling_mean (short_window self) (Close (bars self)))
              (rolling_mean (long_window self) (Close (bars self))) i.
Proof. intros Hi. unfold at_, signals_frame. cbn [signal]. now apply nth_map_seq. Qed.

Lemma signal_length (self : t) :
  length (signal (signals_frame self)) = length (Close (bars self)).
Proof.
  unfold signals_frame. cbn [signal]. now rewrite length_map, length_seq.
Qed.

Lemma generate_signals_returns (self : t) :
  (short_window self <= length (Close (bars self)))%nat ->
  generate_signals self = Returns (signals_frame self).
Proof.
  intros H. unfold generate_signals.
  destruct (Nat.ltb_spec (length (Close (bars self))) (short_window self));
    [lia | reflexivity].
Qed.

End CrossFacts.

(** X16.  When the short window does not exceed the number of bars, the
    crossover strategy returns one signal per bar; it is long-only and
    silent during the warm-up: every signal is 0.0 or 1.0, and the
    signal is 0.0 on every bar before [short_window] and on every bar on
    which the long average is not yet defined (fewer than [long_window]
    bars seen). *)
Theorem cross_signal_shape (self : MovingAverageCrossStrategy.t) (i : nat) :
  (MovingAverageCrossStrategy.short_window self
   <= length (Close (MovingAverageCrossStrategy.bars self)))%nat ->
  (i < length (Close (MovingAverageCrossStrategy.bars self)))%nat ->
  exists s,
    MovingAverageCrossStrategy.generate_signals self = Returns s /\
    length (MovingAverageCrossStrategy.signal s)
    = length (Close (MovingAverageCrossStrategy.bars self)) /\
    is_flag (at_ (MovingAverageCrossStrategy.signal s) i) /\
    ((i < MovingAverageCrossStrategy.short_window self)%nat ->
     at_ (MovingAverageCrossStrategy.signal s) i = F.zero) /\
    ((S i < MovingAverageCrossStrategy.long_window self)%nat ->
     at_ (MovingAverageCrossStrategy.signal s) i = F.zero).
Proof.
  intros Hw Hi. eexists.
  split; [exact (CrossFacts.generate_signals_returns self Hw)|].
  rewrite (CrossFacts.signal_nth self i Hi).
  repeat split.
  - apply CrossFacts.signal_length.
  - apply CrossFacts.signal_at_flag.
  - intros Hs. unfold MovingAverageCrossStrategy.signal_at.
    destruct (Nat.ltb_spec i (MovingAverageCrossStrategy.short_window self));
      [reflexivity | lia].
  - intros Hl. unfold MovingAverageCrossStrategy.signal_at.
    destruct (i <? MovingAverageCrossStrategy.short_window self)%nat;
      [reflexivity|].
    now rewrite (CrossFacts.rolling_mean_warmup _ _ _ Hl).
Qed.

(** X17.  With equal short and long windows, not larger than the number
    of bars, the two averages coincide and the strategy never signals:
    it returns, and every signal is 0.0. *)
Theorem cross_equal_windows_never_signal (self : MovingAverageCrossStrategy.t) :
  MovingAverageCrossStrategy.short_window self
  = MovingAverageCrossStrategy.long_window self ->
  (MovingAverageCrossStrategy.short_window self
   <= length (Close (MovingAverageCrossStrategy.bars self)))%nat ->
  exists s,
    MovingAverageCrossStrategy.generate_signals self = Returns s /\
    Forall (fun x => x = F.zero) (MovingAverageCrossStrategy.signal s).
Proof.
  intros Hw Hn. eexists.
  split; [exact (CrossFacts.generate_signals_returns self Hn)|].
  unfold MovingAverageCrossStrategy.signals_frame.
  cbn [MovingAverageCrossStrategy.signal]. rewrite Hw.
  apply Forall_forall. intros x Hx. apply in_map_iff in Hx.
  destruct Hx as (i & <- & _). unfold MovingAverageCrossStrategy.signal_at.
  destruct (i <? _)%nat; [reflexivity|].
  now rewrite CrossFacts.ltb_irrefl.
Qed.

Lemma cross_signal_shape_witness :
  exists s,
    MovingAverageCrossStrategy.generate_signals cross_2_3 = Returns s /\
    length (MovingAverageCrossStrategy.signal s) = 4%nat /\
    is_flag (at_ (MovingAverageCrossStrategy.signal s) 1) /\
    ((1 < 2)%nat -> at_ (MovingAverageCrossStrategy.signal s) 1 = F.zero) /\
    ((2 < 3)%nat -> at_ (MovingAverageCrossStrategy.signal s) 1 = F.zero).
Proof.
  exact (cross_signal_shape cross_2_3 1 (le_S 2 3 (le_S 2 2 (le_n 2)))
           (le_S 2 3 (le_S 2 2 (le_n 2)))).
Defined.

Lemma cross_equal_windows_never_signal_witness :
  exists s,
    MovingAverageCrossStrategy.generate_signals cross_2_2 = Returns s /\
    Forall (fun x => x = F.zero) (MovingAverageCrossStrategy.signal s).
Proof.
  exact (cross_equal_windows_never_signal cross_2_2 eq_refl
           (le_S 2 3 (le_S 2 2 (le_n 2)))).
Defined.



Lemma diff_from_at (s : Series) :
  forall p k, (k < length s)%nat ->
         at_ (diff_from p s) k
         = (at_ s k - match k with O => p | S j => at_ s j end)%float.
Proof.
  unfold at_. induction s as [|x s IH]; intros p k Hk; simpl in Hk; [lia|].
  destruct k as [|k]; [reflexivity|].
  cbn [diff_from nth]. rewrite IH by lia. destruct k; reflexivity.
Qed.

Lemma diff_at (s : Series) (k : nat) :
  (S k < length s)%nat ->
  at_ (diff s) (S k) = (at_ s (S k) - at_ s k)%float.
Proof.
  destruct s as [|x s]; simpl; intros Hk; [lia|].
  change (at_ (NaN :: diff_from x s) (S k)) with (at_ (diff_from x s) k).
  rewrite diff_from_at by lia. destruct k; reflexivity.
Qed.

(** X18.  When the short window does not exceed the number of bars, the
    trading orders of the crossover strategy (the difference of
    consecutive signals) are NaN on the first bar and -1, 0 or 1 on
    every later bar; the order is 1 exactly when the signal rises from 0
    to 1 and -1 exactly when it falls from 1 to 0. *)
Theorem cross_orders (self : MovingAverageCrossStrategy.t) (k : nat) :
  (MovingAverageCrossStrategy.short_window self
   <= length (Close (MovingAverageCrossStrategy.bars self)))%nat ->
  (S k < length (Close (MovingAverageCrossStrategy.bars self)))%nat ->
  exists s,
    MovingAverageCrossStrategy.generate_signals self = Returns s /\
    at_ (MovingAverageCrossStrategy.positions s) 0 = NaN /\
    is_order (at_ (MovingAverageCrossStrategy.positions s) (S k)) = true /\
    ((at_ (MovingAverageCrossStrategy.positions s) (S k) == Fin 1)%float = true
     <-> at_ (MovingAverageCrossStrategy.signal s) k = F.zero /\
         at_ (MovingAverageCrossStrategy.signal s) (S k) = F.one) /\
    ((at_ (MovingAverageCrossStrategy.positions s) (S k) == Fin (- (1)))%float
     = true
     <-> at_ (MovingAverageCrossStrategy.signal s) k = F.one /\
         at_ (MovingAverageCrossStrategy.signal s) (S k) = F.zero).
Proof.
  intros Hw Hk. eexists.
  split; [exact (CrossFacts.generate_signals_returns self Hw)|].
  set (s := MovingAverageCrossStrategy.signals_frame self).
  assert (Hlen : length (MovingAverageCrossStrategy.signal s)
                 = length (Close (MovingAverageCrossStrategy.bars self)))
    by apply CrossFacts.signal_length.
  assert (Hf0 : is_flag (at_ (MovingAverageCrossStrategy.signal s) k))
    by (subst s; rewrite CrossFacts.signal_nth by lia;
        apply CrossFacts.signal_at_flag).
  assert (Hf1 : is_flag (at_ (MovingAverageCrossStrategy.signal s) (S k)))
    by (subst s; rewrite CrossFacts.signal_nth by lia;
        apply CrossFacts.signal_at_flag).
  change (MovingAverageCrossStrategy.positions s)
    with (diff (MovingAverageCrossStrategy.signal s)).
  rewrite diff_at by lia.
  split.
  { destruct (MovingAverageCrossStrategy.signal s); [simpl in Hlen; lia|].
    reflexivity. }
  destruct Hf0 as [-> | ->], Hf1 as [-> | ->];
    (split; [reflexivity|]); split; split; intros H;
      try discriminate H; try (destruct H; discriminate);
      try (split; reflexivity); try reflexivity.
Qed.

Lemma cross_orders_witness :
  exists s,
    MovingAverageCrossStrategy.generate_signals cross_2_3 = Returns s /\
    at_ (MovingAverageCrossStrategy.positions s) 0 = NaN /\
    is_order (at_ (MovingAverageCrossStrategy.positions s) 2) = true.
Proof.
  destruct (cross_orders cross_2_3 1 (le_S 2 3 (le_S 2 2 (le_n 2)))
              (le_S 3 3 (le_n 3))) as (s & Hs & H0 & H1 & _).
  exists s. exact (conj Hs (conj H0 H1)).
Defined.

(** ** Slice assignment, random signals, intraday accountant *)

Module SliceFacts.

Lemma zero_first_length (k : nat) (s : Series) :
  length (zero_first k s) = length s.
Proof.
  unfold zero_first. rewrite length_app, repeat_length, length_skipn. lia.
Qed.

Lemma zero_first_at (k : nat) (s : Series) (i : nat) :
  (i < length s)%nat ->
  at_ (zero_first k s) i = if (i <? k)%nat then F.zero else at_ s i.
Proof.
  intros Hi. unfold at_, zero_first.
  destruct (Nat.ltb_spec i k) as [Hk|Hk].
  - rewrite app_nth1 by (rewrite repeat_length; lia).
    apply nth_repeat_lt. lia.
  - rewrite app_nth2; rewrite repeat_length; [|lia].
    rewrite Nat.min_l by lia. rewrite nth_skipn. f_equal. lia.
Qed.

Lemma zero_first_Fin (k : nat) (xs : list Q) :
  zero_first k (map Fin xs) = map Fin (zero_firstQ k xs).
Proof.
  unfold zero_first, zero_firstQ.
  rewrite map_app, map_repeat, skipn_map, length_map. reflexivity.
Qed.

Lemma zero_firstQ_length (k : nat) (xs : list Q) :
  length (zero_firstQ k xs) = length xs.
Proof.
  unfold zero_firstQ. rewrite length_app, repeat_length, length_skipn. lia.
Qed.

Lemma zero_firstQ_nth (k : nat) (xs : list Q) (i : nat) :
  (i < length xs)%nat ->
  nth i (zero_firstQ k xs) 0 = if (i <? k)%nat then 0 else nth i xs 0.
Proof.
  intros Hi. unfold zero_firstQ.
  destruct (Nat.ltb_spec i k) as [Hk|Hk].
  - rewrite app_nth1 by (rewrite repeat_length; lia).
    apply nth_repeat_lt. lia.
  - rewrite app_nth2; rewrite repeat_length; [|lia].
    rewrite Nat.min_l by lia. rewrite nth_skipn. f_equal. lia.
Qed.

End SliceFacts.

(** X19.  The random strategy returns one signal per draw; the first
    five signals are 0.0 and every later one is the sign of its draw, so
    every signal of a draw that is not NaN lies in {-1, 0, 1}. *)
Theorem random_signals (draws : Series) (i : nat) :
  (i < length draws)%nat ->
  let s := RandomForecastingStrategy.generate_signals draws in
  length s = length draws /\
  at_ s i = (if (i <? 5)%nat then F.zero else np_sign (at_ draws i)) /\
  (F.is_nan (at_ draws i) = false -> in_domain (at_ s i)).
Proof.
  intros Hi s. subst s. unfold RandomForecastingStrategy.generate_signals.
  rewrite SliceFacts.zero_first_length, length_map.
  rewrite SliceFacts.zero_first_at by now rewrite length_map.
  assert (Hs : at_ (map np_sign draws) i = np_sign (at_ draws i))
    by (unfold at_; exact (map_nth np_sign draws NaN i)).
  rewrite Hs. repeat split.
  intros Hn. destruct (i <? 5)%nat; [right; left; reflexivity|].
  destruct (at_ draws i) as [| | |q]; try discriminate.
  - right; right; reflexivity.
  - left; reflexivity.
  - unfold np_sign, in_domain. destruct (Qcompare q 0); auto.
Qed.

Lemma random_signals_witness :
  let s := RandomForecastingStrategy.generate_signals
             (map Fin [1; -2; 3; -4; 5; -6; 7]) in
  length s = 7%nat /\
  at_ s 5 = np_sign (Fin (-6)) /\
  (false = false -> in_domain (at_ s 5)).
Proof.
  exact (random_signals (map Fin [1; -2; 3; -4; 5; -6; 7]) 5
           (le_S 6 6 (le_n 6))).
Defined.
Module SumFacts.

Lemma cumsum_from_Fin (xs : list Q) :
  forall a, cumsum_from (Fin a) (map Fin xs) = map Fin (qsums a xs).
Proof.
  induction xs as [|x xs IH]; intros a; [reflexivity|].
  cbn [map cumsum_from qsums F.is_nan F.add]. now rewrite IH.
Qed.

Lemma qsums_length (xs : list Q) : forall a, length (qsums a xs) = length xs.
Proof. induction xs; intros; simpl; auto. Qed.

Lemma cum_shift (f : nat -> Q) (k : nat) :
  cum f (S k) == f 0%nat + cum (fun i => f (S i)) k.
Proof.
  induction k as [|k IH]; [simpl; ring|].
  change (cum f (S (S k))) with (cum f (S k) + f (S (S k))).
  rewrite IH. simpl. ring.
Qed.

Lemma cum_ext (f g : nat -> Q) (t : nat) :
  (forall i, (i <= t)%nat -> f i == g i) -> cum f t == cum g t.
Proof.
  induction t as [|t IH]; intros H; simpl.
  - apply H. lia.
  - rewrite IH by (intros i Hi; apply H; lia). rewrite (H (S t)) by lia.
    reflexivity.
Qed.

Lemma cum_zero (f : nat -> Q) (t : nat) :
  (forall i, (i <= t)%nat -> f i == 0) -> cum f t == 0.
Proof.
  induction t as [|t IH]; intros H; simpl.
  - apply H. lia.
  - rewrite IH by (intros i Hi; apply H; lia). rewrite (H (S t)) by lia.
    ring.
Qed.

Lemma qsums_nth (xs : list Q) :
  forall a k, (k < length xs)%nat ->
         nth k (qsums a xs) 0 == a + cum (fun i => nth i xs 0) k.
Proof.
  induction xs as [|x xs IH]; intros a k Hk; simpl in Hk; [lia|].
  destruct k as [|k]; [simpl; ring|].
  change (nth (S k) (qsums a (x :: xs)) 0) with (nth k (qsums (a + x) xs) 0).
  rewrite IH by lia. rewrite (cum_shift (fun i => nth i (x :: xs) 0) k).
  cbn [nth]. ring.
Qed.

End SumFacts.

Module IntradayFacts.
Import MarketIntradayPortfolio.

(** The profit column as a list of numbers. *)
Lemma intraday_total_Fin (self : t) (pos opens closes : list Q) (cap : Q) :
  intraday_book self pos opens closes cap ->
  total (backtest_portfolio self)
  = map (fun q => Fin (cap + q))
        (qsums 0 (map2Q Qmult pos
                        (zero_firstQ 5 (map2Q (fun c o => c + - o)
                                              closes opens)))).
Proof.
  intros (Hp & Ho & Hc & Hi & Lo & Lc).
  set (ds := map2Q (fun c o => c + - o) closes opens).
  set (zs := zero_firstQ 5 ds).
  set (xs := map2Q Qmult pos zs).
  assert (Lds : length ds = length pos)
    by (unfold ds; rewrite BookFacts.map2Q_length; lia).
  assert (Lzs : length zs = length pos)
    by (unfold zs; rewrite SliceFacts.zero_firstQ_length; exact Lds).
  assert (Lxs : length xs = length pos)
    by (unfold xs; rewrite BookFacts.map2Q_length; lia).
  unfold backtest_portfolio. cbn [total]. rewrite Hp, Ho, Hc, Hi, length_map.
  rewrite (TotalFacts.binop_Fin F.sub (fun c o => c + - o)) by (auto; lia).
  fold ds.
  rewrite (reindex_same (length pos) (map Fin ds)) by now rewrite length_map.
  rewrite SliceFacts.zero_first_Fin. fold zs.
  rewrite (TotalFacts.binop_Fin F.mul Qmult) by (auto; lia).
  fold xs.
  rewrite (reindex_same (length pos) (map Fin xs)) by now rewrite length_map.
  unfold cumsum. change F.zero with (Fin 0).
  rewrite SumFacts.cumsum_from_Fin, map_map.
  apply reindex_same.
  now rewrite length_map, SumFacts.qsums_length.
Qed.

End IntradayFacts.

(** X20.  On numeric positions and prices the intraday accountant's
    equity on every bar, the first included, is the initial capital plus
    the profits booked so far, where a bar books
    [position * (close - open)] and the first five bars book nothing; on
    the first five bars the equity is the initial capital. *)
Theorem intraday_total (self : MarketIntradayPortfolio.t)
        (pos opens closes : list Q) (cap : Q) (t : nat) :
  intraday_book self pos opens closes cap -> (t < length pos)%nat ->
  let p := MarketIntradayPortfolio.backtest_portfolio self in
  (at_ (MarketIntradayPortfolio.total p) t
   == Fin (cap + cum (intraday_profit pos opens closes) t))%float = true /\
  ((t < 5)%nat -> (at_ (MarketIntradayPortfolio.total p) t == Fin cap)%float
                = true).
Proof.
  intros Hb Ht p. subst p.
  rewrite (IntradayFacts.intraday_total_Fin self pos opens closes cap Hb).
  destruct Hb as (_ & _ & _ & _ & Lo & Lc).
  set (ds := map2Q (fun c o => c + - o) closes opens).
  set (xs := map2Q Qmult pos (zero_firstQ 5 ds)).
  assert (Lds : length ds = length pos)
    by (unfold ds; rewrite BookFacts.map2Q_length; lia).
  assert (Lxs : length xs = length pos)
    by (unfold xs; rewrite BookFacts.map2Q_length;
        rewrite ?SliceFacts.zero_firstQ_length; lia).
  rewrite (BookFacts.at_map_Fin (fun q => cap + q))
    by (rewrite SumFacts.qsums_length; lia).
  assert (Hx : forall i, (i <= t)%nat ->
                    nth i xs 0 == intraday_profit pos opens closes i).
  { intros i Hi. unfold xs, intraday_profit.
    rewrite BookFacts.map2Q_nth
      by (rewrite ?SliceFacts.zero_firstQ_length; lia).
    rewrite SliceFacts.zero_firstQ_nth by lia.
    destruct (i <? 5)%nat; [ring|].
    unfold ds. rewrite BookFacts.map2Q_nth by lia. ring. }
  assert (Hsum : nth t (qsums 0 xs) 0
                 == cum (intraday_profit pos opens closes) t).
  { rewrite SumFacts.qsums_nth by lia.
    rewrite (SumFacts.cum_ext _ (intraday_profit pos opens closes) t Hx).
    ring. }
  split.
  - apply eqb_Fin. rewrite Hsum. reflexivity.
  - intros H5. apply eqb_Fin. rewrite Hsum.
    rewrite SumFacts.cum_zero; [ring|].
    intros i Hi. unfold intraday_profit.
    destruct (Nat.ltb_spec i 5); [reflexivity | lia].
Qed.

Lemma seven_bars_intraday_book :
  intraday_book seven_bars_intraday
                [500; 500; 500; 500; 500; 500; 500]
                [10; 10; 10; 10; 10; 10; 10]
                [11; 11; 11; 11; 11; 12; 9] 1000.
Proof. repeat split. Qed.

Lemma intraday_total_witness :
  let p := MarketIntradayPortfolio.backtest_portfolio seven_bars_intraday in
  (at_ (MarketIntradayPortfolio.total p) 6
   == Fin (1000 + cum (intraday_profit [500; 500; 500; 500; 500; 500; 500]
                                       [10; 10; 10; 10; 10; 10; 10]
                                       [11; 11; 11; 11; 11; 12; 9]) 6))%float
  = true.
Proof.
  destruct (intraday_total seven_bars_intraday
              [500; 500; 500; 500; 500; 500; 500]
              [10; 10; 10; 10; 10; 10; 10]
              [11; 11; 11; 11; 11; 12; 9] 1000 6
              seven_bars_intraday_book (le_n 7)) as [H _].
  exact H.
Defined.

(** ** Crossover signals through the close-fill accountant *)

Module PipelineFacts.

Lemma scale_flags (s : Series) :
  Forall is_flag s ->
  map (fun x => (lot * x)%float) s = map Fin (map units s).
Proof.
  induction 1 as [|x s Hx _ IH]; [reflexivity|].
  cbn [map]. rewrite IH. destruct Hx as [-> | ->]; reflexivity.
Qed.

Lemma traded_zero (pos price : list Q) (t : nat) :
  (forall i, (i <= t)%nat -> nth i pos 0 == 0) -> traded pos price t == 0.
Proof.
  induction t as [|t IH]; intros H; [reflexivity|].
  cbn [traded]. rewrite IH by (intros i Hi; apply H; lia).
  rewrite (H (S t)), (H t) by lia. ring.
Qed.

Lemma cross_signal_flags (self : MovingAverageCrossStrategy.t) :
  Forall is_flag
         (MovingAverageCrossStrategy.signal
            (MovingAverageCrossStrategy.signals_frame self)).
Proof.
  unfold MovingAverageCrossStrategy.signals_frame.
  cbn [MovingAverageCrossStrategy.signal].
  apply Forall_forall. intros x Hx. apply in_map_iff in Hx.
  destruct Hx as (i & <- & _). apply CrossFacts.signal_at_flag.
Qed.

End PipelineFacts.

(** X21.  Crossover signals sized and accounted by the close-fill
    accountant, with a short window that does not exceed the number of
    bars: the signals are returned, the accountant is built without
    failure, and on every bar [1 <= t < short_window] the equity equals
    the initial capital, since no position is held during the warm-up. *)
Theorem cross_warmup_equity (self : MovingAverageCrossStrategy.t)
        (closes : list Q) (cap : Q) (t : nat) :
  Close (MovingAverageCrossStrategy.bars self) = map Fin closes ->
  (MovingAverageCrossStrategy.short_window self <= length closes)%nat ->
  (1 <= t)%nat -> (t < MovingAverageCrossStrategy.short_window self)%nat ->
  exists s c,
    MovingAverageCrossStrategy.generate_signals self = Returns s /\
    MarketOnClosePortfolio.init
      (MovingAverageCrossStrategy.bars self)
      (MovingAverageCrossStrategy.signal s)
      (Fin cap) = Returns c /\
    (at_ (MarketOnClosePortfolio.total
            (MarketOnClosePortfolio.backtest_portfolio c)) t
     == Fin cap)%float = true.
Proof.
  intros HC Hn H1 Hw.
  assert (Ht : (t < length closes)%nat) by lia.
  set (sig := MovingAverageCrossStrategy.signal
                (MovingAverageCrossStrategy.signals_frame self)).
  assert (Hlen : length sig = length closes).
  { unfold sig. rewrite CrossFacts.signal_length.
    now rewrite HC, length_map. }
  exists (MovingAverageCrossStrategy.signals_frame self). eexists.
  split.
  { apply CrossFacts.generate_signals_returns.
    now rewrite HC, length_map. }
  split; [reflexivity|].
  set (c := {| MarketOnClosePortfolio.bars := _ |}).
  assert (Hbook : close_book c (map units sig) closes cap).
  { unfold close_book, c.
    cbn [MarketOnClosePortfolio.positions MarketOnClosePortfolio.bars
         MarketOnClosePortfolio.initial_capital MarketOnClosePortfolio.signals].
    fold sig.
    rewrite map_length_reindex, length_map.
    rewrite (PipelineFacts.scale_flags sig
               (PipelineFacts.cross_signal_flags self)).
    repeat split; auto. }
  assert (Hzero : forall i, (i <= t)%nat -> nth i (map units sig) 0 == 0).
  { intros i Hi.
    change 0 with (units NaN) at 1. rewrite map_nth.
    fold (at_ sig i). unfold sig.
    rewrite CrossFacts.signal_nth by (rewrite HC, length_map; lia).
    unfold MovingAverageCrossStrategy.signal_at.
    destruct (Nat.ltb_spec i (MovingAverageCrossStrategy.short_window self));
      [reflexivity | lia]. }
  destruct (close_total_value c (map units sig) closes cap t Hbook)
    as (a & -> & Va); [rewrite length_map; lia|].
  apply eqb_Fin. rewrite Va.
  rewrite (PipelineFacts.traded_zero _ _ t Hzero), (Hzero t) by lia. ring.
Qed.

Lemma cross_warmup_equity_witness :
  exists s c,
    MovingAverageCrossStrategy.generate_signals cross_2_3 = Returns s /\
    MarketOnClosePortfolio.init
      (MovingAverageCrossStrategy.bars cross_2_3)
      (MovingAverageCrossStrategy.signal s)
      (Fin 1000) = Returns c /\
    (at_ (MarketOnClosePortfolio.total
            (MarketOnClosePortfolio.backtest_portfolio c)) 1
     == Fin 1000)%float = true.
Proof.
  exact (cross_warmup_equity cross_2_3 [1; 2; 3; 4] 1000 1 eq_refl
           (le_S 2 3 (le_S 2 2 (le_n 2))) (le_n 1) (le_n 2)).
Defined.

(** ** More on the Sharpe ratio *)

Module RatioFacts.
Import Performance.

Lemma dropna_idem (s : Series) : dropna (dropna s) = dropna s.
Proof.
  unfold dropna. induction s as [|x s IH]; [reflexivity|].
  cbn [filter]. destruct (negb (F.is_nan x)) eqn:E; [|exact IH].
  cbn [filter]. now rewrite E, IH.
Qed.

Lemma nansum_dropna (s : Series) : nansum (dropna s) = nansum s.
Proof.
  unfold nansum. change (filter _ (dropna s)) with (dropna (dropna s)).
  now rewrite dropna_idem.
Qed.

Lemma np_mean_dropna (s : Series) : np_mean (dropna s) = np_mean s.
Proof. unfold np_mean. now rewrite nansum_dropna, dropna_idem. Qed.

Lemma np_std_dropna (sqrtQ : Q -> Q) (s : Series) :
  np_std sqrtQ (dropna s) = np_std sqrtQ s.
Proof. unfold np_std. now rewrite np_mean_dropna, dropna_idem. Qed.

Lemma mul_nan_r (x : float) : (x * NaN)%float = NaN.
Proof. destruct x; reflexivity. Qed.

Lemma div_nan_l (x : float) : (NaN / x)%float = NaN.
Proof. reflexivity. Qed.

Lemma ratio_Fin (sqrtQ : Q -> Q) (rs : list Q) (p : Q) :
  rs <> [] -> 0 <= p -> ~ stdev sqrtQ rs == 0 ->
  create_sharpe_ratio sqrtQ (map Fin rs) (Fin p)
  = Fin (sqrtQ p * mean rs / stdev sqrtQ rs).
Proof.
  intros Hne Hp Hsd. unfold create_sharpe_ratio.
  rewrite SharpeFacts.np_mean_Fin, SharpeFacts.np_std_Fin by exact Hne.
  unfold np_sqrt. apply Qle_bool_iff in Hp. rewrite Hp.
  cbn [F.mul]. now apply SharpeFacts.div_Fin.
Qed.

End RatioFacts.

(** X22.  NaN entries of the returns are left out: the ratio of a
    series equals the ratio of the series without its NaN entries, so
    the NaN that heads the returns of a backtest does not spoil it. *)
Theorem sharpe_ignores_nan (sqrtQ : Q -> Q) (returns : Series)
        (periods : float) :
  Performance.create_sharpe_ratio sqrtQ returns periods
  = Performance.create_sharpe_ratio sqrtQ (Performance.dropna returns) periods
  /\
  Performance.create_sharpe_ratio sqrtQ (NaN :: returns) periods
  = Performance.create_sharpe_ratio sqrtQ returns periods.
Proof.
  split; [|reflexivity].
  unfold Performance.create_sharpe_ratio.
  now rewrite RatioFacts.np_mean_dropna, RatioFacts.np_std_dropna.
Qed.

(** X23.  On a series with no entry, or with NaN entries only, the ratio
    is NaN whatever the number of periods. *)
Theorem sharpe_of_nothing (sqrtQ : Q -> Q) (returns : Series)
        (periods : float) :
  Performance.dropna returns = [] ->
  Performance.create_sharpe_ratio sqrtQ returns periods = NaN.
Proof.
  intros He. unfold Performance.create_sharpe_ratio, Performance.np_mean.
  unfold nansum. change (filter _ returns) with (Performance.dropna returns).
  rewrite He. cbn [fold_left length]. unfold F.of_nat.
  change (F.zero / Fin (inject_Z (Z.of_nat 0)))%float with NaN.
  now rewrite RatioFacts.mul_nan_r.
Qed.

Lemma sharpe_of_nothing_witness :
  Performance.create_sharpe_ratio isqrtQ [NaN; NaN] (Fin 252) = NaN.
Proof. exact (sharpe_of_nothing isqrtQ [NaN; NaN] (Fin 252) eq_refl). Defined.

(** X24.  With a root that is positive on positive numbers and not
    negative elsewhere, a positive number of periods and a non-zero
    deviation, the ratio of a non-empty series of numbers is a number
    with the sign of the mean return: positive, zero or negative as the
    mean is. *)
Theorem sharpe_sign (sqrtQ : Q -> Q) (rs : list Q) (p : Q) :
  (forall q, 0 < q -> 0 < sqrtQ q) -> (forall q, 0 <= q -> 0 <= sqrtQ q) ->
  rs <> [] -> 0 < p -> ~ Performance.stdev sqrtQ rs == 0 ->
  exists v,
    Performance.create_sharpe_ratio sqrtQ (map Fin rs) (Fin p) = Fin v /\
    (0 < v <-> 0 < Performance.mean rs) /\
    (v == 0 <-> Performance.mean rs == 0) /\
    (v < 0 <-> Performance.mean rs < 0).
Proof.
  intros Hpos Hnn Hne Hp Hsd.
  rewrite RatioFacts.ratio_Fin by (auto; lra).
  eexists. split; [reflexivity|].
  assert (Hs : 0 < sqrtQ p) by now apply Hpos.
  assert (Hd : 0 < Performance.stdev sqrtQ rs).
  { assert (0 <= Performance.stdev sqrtQ rs)
      by (unfold Performance.stdev; apply Hnn;
          now apply SharpeFacts.mean_squares_nonneg).
    lra. }
  set (m := Performance.mean rs) in *.
  set (d := Performance.stdev sqrtQ rs) in *.
  set (s := sqrtQ p) in *.
  assert (Hv : s * m / d == m * (s / d)) by (field; lra).
  assert (Hk : 0 < s / d) by (apply Qlt_shift_div_l; lra).
  rewrite Hv. repeat split; intros H; nra.
Qed.

Lemma isqrtQ_nonneg (q : Q) : 0 <= q -> 0 <= isqrtQ q.
Proof.
  intros _. unfold isqrtQ, Qle. simpl.
  pose proof (Z.sqrt_nonneg (Qnum (Qred q))). lia.
Qed.

Lemma isqrtQ_pos (q : Q) : 0 < q -> 0 < isqrtQ q.
Proof.
  intros Hq. pose proof (SharpeFacts.isqrtQ_positive q Hq).
  pose proof (isqrtQ_nonneg q). lra.
Qed.

Lemma sharpe_sign_witness :
  exists v,
    Performance.create_sharpe_ratio isqrtQ (map Fin [1; 3]) (Fin 4) = Fin v /\
    (0 < v <-> 0 < Performance.mean [1; 3]).
Proof.
  destruct (sharpe_sign isqrtQ [1; 3] 4 isqrtQ_pos isqrtQ_nonneg)
    as (v & Hv & H1 & _).
  - discriminate.
  - reflexivity.
  - intro H. vm_compute in H. discriminate H.
  - exists v. split; assumption.
Defined.
